(** * aimtune: the guitar tuner's pitch pipeline and display mapping

    A shallow embedding of [aimersfirstTryFronted.py].  The numbers of the
    audio pipeline are numpy [float64] scalars and Python floats, both IEEE 754
    binary64, so they are modelled by Rocq's primitive [float], whose
    operations are the binary64 ones (division by zero gives an infinity or a
    NaN, comparisons with a NaN are false).  Python's [int] constants that meet
    a float in an operation are written as the float they are converted to.

    The display code in [update_ui] is written once over a small number
    interface, with two instances: binary64 (what the interpreter computes)
    and the rationals (the exact arithmetic in which the mapping is
    specified). *)

From Stdlib Require Import Floats ZArith QArith Qabs List String Bool Lia Lqa.
From Stdlib Require Uint63.
Import ListNotations.

Set Warnings "-inexact-float".
Local Open Scope string_scope.
Local Open Scope float_scope.

(** ** Python and numpy primitives *)

Module Py.

(** [float(n)] for a non-negative index [n] (an [np.int64] meeting a float). *)
Definition of_nat (n : nat) : float := of_uint63 (Uint63.of_Z (Z.of_nat n)).

(** [float(z)] for a small integer literal. *)
Definition of_Z (z : Z) : float :=
  match z with
  | Z0 => 0
  | Zpos _ => of_uint63 (Uint63.of_Z z)
  | Zneg p => - of_uint63 (Uint63.of_Z (Zpos p))
  end.

(** Truth value of [self.manual_target]: [None] and a zero are false, every
    other float (a NaN too) is true. *)
Definition truthy (m : option float) : bool :=
  match m with
  | None => false
  | Some f => negb (f =? 0)
  end.

(** [np.diff(c)]: [d[i] = c[i+1] - c[i]]. *)
Fixpoint diff (c : list float) : list float :=
  match c with
  | a :: (b :: _) as t => (b - a) :: diff t
  | _ => []
  end.

(** [np.where(d > 0)[0][0]]: the first index whose entry is positive;
    [None] is the [IndexError] of indexing an empty result. *)
Fixpoint first_positive (d : list float) : option nat :=
  match d with
  | [] => None
  | x :: t => if 0 <? x then Some 0%nat else option_map S (first_positive t)
  end.

(** The scan of numpy's [argmax] for floats: the running maximum [mp] is
    replaced by an entry [x] unless [x <= mp], and the scan stops at the
    first NaN, which counts as maximal. *)
Fixpoint argmax_scan (mp : float) (best i : nat) (l : list float) : nat :=
  match l with
  | [] => best
  | x :: t =>
      if x <=? mp then argmax_scan mp best (S i) t
      else if is_nan x then i
      else argmax_scan x i (S i) t
  end.

(** [np.argmax(l)]; [None] is the [ValueError] on an empty array. *)
Definition argmax (l : list float) : option nat :=
  match l with
  | [] => None
  | x :: t => if is_nan x then Some 0%nat else Some (argmax_scan x 0 1 t)
  end.

End Py.

(** ** Constants of the module *)

Definition SAMPLE_RATE : float := 44100.
Definition BUFFER_SIZE : nat := 4096.

(** The dict literal, in insertion order (the order [items()] iterates in). *)
Definition GUITAR_STRINGS : list (string * float) :=
  [ ("E2", 82.41); ("A2", 110.00); ("D3", 146.83);
    ("G3", 196.00); ("B3", 246.94); ("E4", 329.63) ].

Definition ORDERED_KEYS : list string := ["E2"; "A2"; "D3"; "G3"; "B3"; "E4"].

Definition NOISE_THRESHOLD : float := 0.02.

(** [GUITAR_STRINGS[name]]; [None] is the [KeyError]. *)
Fixpoint getitem (d : list (string * float)) (name : string) : option float :=
  match d with
  | [] => None
  | (k, v) :: rest => if String.eqb k name then Some v else getitem rest name
  end.

(** ** The backend object *)

Record AudioBackend := mkBackend {
  running : bool;
  manual_target : option float
}.

(** [AudioBackend.__init__]: not running, no manual target. *)
Definition init_backend : AudioBackend :=
  {| running := false; manual_target := None |}.

(** [start] sets the flag (and opens the stream, which is the [Capture] the
    loop is given). *)
Definition start (self : AudioBackend) : AudioBackend :=
  {| running := true; manual_target := manual_target self |}.

Inductive Raised := KeyError (key : string).

(** [set_manual_target], as state passing: the object after the call, and the
    exception if one was raised.  The subscript [GUITAR_STRINGS[note_name]] is
    evaluated before the attribute is assigned, so a [KeyError] leaves the
    object as it was. *)
Definition set_manual_target (self : AudioBackend) (note_name : string)
  : AudioBackend * option Raised :=
  if String.eqb note_name "Auto" then
    ({| running := running self; manual_target := None |}, None)
  else
    match getitem GUITAR_STRINGS note_name with
    | Some f => ({| running := running self; manual_target := Some f |}, None)
    | None => (self, Some (KeyError note_name))
    end.

(** ** Pitch detection *)

(** Numeric kernels that come from outside the repository: numpy's
    [np.sqrt(np.mean(samples**2))], the Hann-windowed autocorrelation
    [np.correlate(s*w, s*w, 'full')[len//2:]] ([None] when numpy raises, as on
    a buffer of the wrong length) and the C library's [log2] on positive finite
    arguments. *)
Record Kernels := mkKernels {
  np_rms : list float -> float;
  np_autocorr : list float -> option (list float);
  libm_log2 : float -> float
}.

(** Step 2 of the loop body, first half: [start] and [peak].  [None] when the
    [IndexError] is raised (no positive difference); the slice [corr[start:]]
    is never empty then, so [argmax] does not raise. *)
Definition find_peak (corr : list float) : option nat :=
  match Py.first_positive (Py.diff corr) with
  | None => None
  | Some start =>
      match Py.argmax (skipn start corr) with
      | None => None
      | Some k => Some (k + start)%nat
      end
  end.

(** The guard [0 < peak < len(corr) - 1]. *)
Definition interior (corr : list float) (peak : nat) : bool :=
  (0 <? peak)%nat && (peak <? List.length corr - 1)%nat.

Definition alpha (corr : list float) (peak : nat) : float := nth (peak - 1) corr 0.
Definition beta (corr : list float) (peak : nat) : float := nth peak corr 0.
Definition gamma (corr : list float) (peak : nat) : float := nth (peak + 1) corr 0.

(** [alpha - 2 * beta + gamma] *)
Definition denominator (corr : list float) (peak : nat) : float :=
  alpha corr peak - 2 * beta corr peak + gamma corr peak.

(** [peak_refined] of the source, both branches. *)
Definition peak_refined (corr : list float) (peak : nat) : float :=
  if interior corr peak then
    Py.of_nat peak
    + (alpha corr peak - gamma corr peak) / (2 * denominator corr peak)
  else Py.of_nat peak.

(** [freq = SAMPLE_RATE / peak_refined] *)
Definition freq_of_lag (lag : float) : float := SAMPLE_RATE / lag.

(** [freq < 60 or freq > 500] *)
Definition implausible (freq : float) : bool := (freq <? 60) || (500 <? freq).

(** ** Target selection *)

(** The manual branch: the stored frequency, and the name of the last table
    entry equal to it. *)
Definition manual_name (target_freq : float) : string :=
  fold_left (fun name '(n, f) => if f =? target_freq then n else name)
            GUITAR_STRINGS "".

(** One pass of the automatic search loop over [(min_dist, target_freq, name)]. *)
Definition closer (freq : float) (st : float * float * string) (entry : string * float)
  : float * float * string :=
  let '(min_dist, target_freq, name) := st in
  let '(n, f_target) := entry in
  let dist := abs (f_target - freq) in
  if dist <? min_dist then (dist, f_target, n) else st.

Definition nearest_in (table : list (string * float)) (freq : float)
  : float * float * string :=
  fold_left (closer freq) table (infinity, 0, "").

(** The automatic branch: the search loop over the table. *)
Definition automatic (freq : float) : float * string :=
  let '(_, target_freq, name) := nearest_in GUITAR_STRINGS freq in
  (target_freq, name).

(** Step 3: [(target_freq, closest_note_name)]; the test is the truth value of
    [self.manual_target]. *)
Definition determine_target (manual : option float) (freq : float) : float * string :=
  match manual with
  | Some m => if Py.truthy manual then (m, manual_name m) else automatic freq
  | None => automatic freq
  end.

(** ** Cents *)

(** [math.log2] of the interpreter: a NaN and [+inf] are returned as they
    are, a positive finite argument goes to the C library, everything else
    (zero of either sign, negative numbers, [-inf]) raises [ValueError],
    rendered as [None]. *)
Definition math_log2 (K : Kernels) (x : float) : option float :=
  if is_nan x then Some x
  else if x =? infinity then Some x
  else if 0 <? x then Some (libm_log2 K x)
  else None.

(** [try: cents = 1200 * math.log2(freq / target_freq)
     except ValueError: cents = 0] *)
Definition cents_of (K : Kernels) (freq target_freq : float) : float :=
  match math_log2 K (freq / target_freq) with
  | Some l => 1200 * l
  | None => 0
  end.

(** ** One iteration of [_process_loop] *)

Record Reading := mkReading {
  frequency : float;
  cents : float;
  noteName : string;
  isActive : bool
}.

(** What the body does besides computing: at most one callback, and at most
    one sleep. *)
Inductive Pause := NoPause | RetryWait (* time.sleep(0.1) *) | Pacing (* time.sleep(0.05) *).

Record Step := mkStep {
  emitted : option Reading;
  pause : Pause
}.

(** The stream as one iteration sees it. *)
Inductive Capture :=
| Inactive                       (* stream is None or not active *)
| ReadFailed                     (* stream.read raises *)
| Frames (samples : list float). (* the float32 samples read *)

Definition silence : Reading :=
  {| frequency := 0; cents := 0; noteName := "Silence"; isActive := false |}.

Definition skip : Step := {| emitted := None; pause := NoPause |}.

(** Steps 2 and 3 on the correlation array. *)
Definition detect (K : Kernels) (manual : option float) (corr : list float) : Step :=
  match find_peak corr with
  | None => skip
  | Some peak =>
      let freq := freq_of_lag (peak_refined corr peak) in
      if implausible freq then skip
      else
        let '(target_freq, closest_note_name) := determine_target manual freq in
        {| emitted := Some {| frequency := freq;
                              cents := cents_of K freq target_freq;
                              noteName := closest_note_name;
                              isActive := true |};
           pause := Pacing |}
  end.

(** The body of the [while] loop; every exception ends the iteration with
    nothing emitted ([except Exception: pass]). *)
Definition iteration (K : Kernels) (self : AudioBackend) (c : Capture) : Step :=
  match c with
  | Inactive => {| emitted := None; pause := RetryWait |}
  | ReadFailed => skip
  | Frames samples =>
      if np_rms K samples <? NOISE_THRESHOLD then
        {| emitted := Some silence; pause := NoPause |}
      else
        match np_autocorr K samples with
        | None => skip
        | Some corr => detect K (manual_target self) corr
        end
  end.

(** [while self.running: ...] over the successive states of the stream: the
    readings handed to the callback, in order.  The flag is read before each
    iteration; the loop body does not change the object. *)
Fixpoint process_loop (K : Kernels) (self : AudioBackend) (stream : list Capture)
  : list Reading :=
  match stream with
  | [] => []
  | c :: rest =>
      if running self then
        match emitted (iteration K self c) with
        | Some r => r :: process_loop K self rest
        | None => process_loop K self rest
        end
      else []
  end.

(** ** The display: [update_ui] *)

(** The arithmetic [update_ui] uses: integer literals, [+], [/], [abs] and
    [<].  The interpreter runs it at binary64; the rationals give the exact
    arithmetic of the specification. *)
Class Number (T : Type) := {
  lit : Z -> T;
  nadd : T -> T -> T;
  ndiv : T -> T -> T;
  nabs : T -> T;
  nlt : T -> T -> bool
}.

#[export] Instance binary64 : Number float := {
  lit := Py.of_Z;
  nadd := PrimFloat.add;
  ndiv := PrimFloat.div;
  nabs := PrimFloat.abs;
  nlt := PrimFloat.ltb
}.

#[export] Instance exact : Number Q := {
  lit := inject_Z;
  nadd := Qplus;
  ndiv := Qdiv;
  nabs := Qabs;
  nlt := fun a b => negb (Qle_bool b a)
}.

Inductive Color := BLUE | GREEN | ORANGE | RED | WHITE.

(** The text under the note: ["Silence"], or the frequency to be printed with
    one decimal and [" Hz"]. *)
Inductive FreqText (T : Type) := SilenceText | Hz (freq : T).
Arguments SilenceText {T}.
Arguments Hz {T} freq.

Record View (T : Type) := mkView {
  note_text : string;
  freq_text : FreqText T;
  bar_value : T;
  bar_color : Color;
  guide_text : string;
  guide_color : Color
}.
Arguments mkView {T}.
Arguments note_text {T}.
Arguments freq_text {T}.
Arguments bar_value {T}.
Arguments bar_color {T}.
Arguments guide_text {T}.
Arguments guide_color {T}.

Section Display.
Context {T : Type} `{Number T}.

(** The interpreter's [max(a, b)] and [min(a, b)]: the first argument is kept
    unless the second compares strictly beyond it. *)
Definition py_max (a b : T) : T := if nlt a b then b else a.
Definition py_min (a b : T) : T := if nlt b a then b else a.

(** [normalized_val = (cents + 50) / 100;
     normalized_val = max(0.0, min(1.0, normalized_val))] *)
Definition normalized_val (cents : T) : T :=
  py_max (lit 0) (py_min (lit 1) (ndiv (nadd cents (lit 50)) (lit 100))).

(** The three branches of the colour logic. *)
Inductive Tuning := Perfect | Flat | Sharp.

Definition tuning (cents : T) : Tuning :=
  if nlt (nabs cents) (lit 5) then Perfect
  else if nlt cents (lit 0) then Flat
  else Sharp.

Definition update_ui (freq cents : T) (note_name : string) (is_active : bool) : View T :=
  if negb is_active then
    {| note_text := "--"; freq_text := SilenceText;
       bar_value := ndiv (lit 1) (lit 2); bar_color := BLUE;
       guide_text := "Pluck a string"; guide_color := WHITE |}
  else
    match tuning cents with
    | Perfect =>
        {| note_text := note_name; freq_text := Hz freq;
           bar_value := normalized_val cents; bar_color := GREEN;
           guide_text := "PERFECT"; guide_color := GREEN |}
    | Flat =>
        {| note_text := note_name; freq_text := Hz freq;
           bar_value := normalized_val cents; bar_color := ORANGE;
           guide_text := "Too Flat (Tune Up)"; guide_color := ORANGE |}
    | Sharp =>
        {| note_text := note_name; freq_text := Hz freq;
           bar_value := normalized_val cents; bar_color := RED;
           guide_text := "Too Sharp (Tune Down)"; guide_color := RED |}
    end.


End Display.


(** ** Stand-ins for the numeric kernels

    Plain binary64 versions of the three kernels, for running the model on
    concrete buffers: a left-to-right sum for the mean, the autocorrelation at
    non-negative lags with a rectangular window, and a logarithm that is exact
    at the powers of two and linear between them.  The properties below hold
    for every [Kernels]; these only instantiate them. *)

Definition rms64 (samples : list float) : float :=
  PrimFloat.sqrt (fold_left PrimFloat.add (map (fun s => s * s) samples) 0
        / Py.of_nat (List.length samples)).

Fixpoint dot (a b : list float) : float :=
  match a, b with
  | x :: a', y :: b' => x * y + dot a' b'
  | _, _ => 0
  end.

Definition autocorr64 (samples : list float) : option (list float) :=
  match samples with
  | [] => None
  | _ => Some (map (fun k => dot samples (skipn k samples))
                   (seq 0 (List.length samples)))
  end.

Definition log2_linear (x : float) : float :=
  let '(m, e) := frshiftexp x in
  Py.of_Z (Uint63.to_Z e - FloatOps.shift) + (2 * m - 2).

Definition stand_in : Kernels :=
  {| np_rms := rms64; np_autocorr := autocorr64; libm_log2 := log2_linear |}.


(** ** Reading binary64 values on their specification

    [Prim2SF] maps a float to its sign, mantissa and exponent; the shapes
    below are used to state facts about the primitive operations. *)

Definition sf_nan (x : spec_float) : bool :=
  match x with S754_nan => true | _ => false end.

Definition sf_inf (x : spec_float) : bool :=
  match x with S754_infinity _ => true | _ => false end.

Definition sf_zero (x : spec_float) : bool :=
  match x with S754_zero _ => true | _ => false end.

(** A zero or a finite non-zero number. *)
Definition sf_number (x : spec_float) : bool :=
  match x with S754_zero _ | S754_finite _ _ _ => true | _ => false end.

(** A zero, or a finite number whose exponent and magnitude stay two binades
    below the overflow threshold, so that a difference of two of them cannot
    overflow. *)
Definition sf_small (x : spec_float) : Prop :=
  match x with
  | S754_zero _ => True
  | S754_finite _ m e => (e <= 971)%Z /\ (Zpos (digits2_pos m) + e <= 1022)%Z
  | _ => False
  end.

(** The distance the search loop computes for a table entry. *)
Definition dist (freq : float) (entry : string * float) : float :=
  abs (snd entry - freq).

(** The state of the search loop after the entries [seen]: nothing chosen
    yet, or an entry of [seen] such that the earlier ones are strictly
    farther and the later ones not closer. *)
Definition searched (freq : float) (seen : list (string * float))
           (st : float * float * string) : Prop :=
  let '(min_dist, target_freq, name) := st in
  (seen = [] /\ st = (infinity, 0, ""))
  \/ exists pre post,
       seen = (pre ++ (name, target_freq) :: post)%list
       /\ min_dist = abs (target_freq - freq)
       /\ (forall e, In e pre -> (min_dist <? dist freq e) = true)
       /\ (forall e, In e post -> (dist freq e <? min_dist) = false).

(** ** The wiring in [main]

    [audio = AudioBackend(update_ui)]: the callback of the loop is
    [update_ui]; the dropdown offers "Auto" and the ordered keys, and its
    change handler passes the selected value to [set_manual_target]. *)

Definition mode_options : list string := "Auto" :: ORDERED_KEYS.

Definition on_mode_change (audio : AudioBackend) (value : string)
  : AudioBackend * option Raised :=
  set_manual_target audio value.

(** What the display shows for a reading. *)
Definition callback (r : Reading) : View float :=
  update_ui (frequency r) (cents r) (noteName r) (isActive r).

(** The manual target is unset or the frequency of a table entry. *)
Definition well_targeted (self : AudioBackend) : Prop :=
  manual_target self = None
  \/ exists n f, In (n, f) GUITAR_STRINGS /\ manual_target self = Some f.

(** * Properties *)

(** ** Binary64 order and special values *)

Module B64.

Lemma SFcompare_refl (x : spec_float) :
  SFcompare x x = if sf_nan x then None else Some Eq.
Proof.
  destruct x as [s|s| |s m e]; simpl; try reflexivity.
  - now destruct s.
  - rewrite Z.compare_refl, (Pos.compare_refl m : Pos.compare_cont Eq m m = Eq).
    now destruct s.
Qed.

Ltac cmp_cases :=
  repeat match goal with
  | H : context [Z.compare ?a ?b] |- _ =>
      destruct (Z.compare_spec a b); simpl in H
  | |- context [Z.compare ?a ?b] =>
      destruct (Z.compare_spec a b); simpl
  | H : context [Pos.compare_cont Eq ?a ?b] |- _ =>
      change (Pos.compare_cont Eq a b) with (Pos.compare a b) in H;
      destruct (Pos.compare_spec a b); simpl in H
  | |- context [Pos.compare_cont Eq ?a ?b] =>
      change (Pos.compare_cont Eq a b) with (Pos.compare a b);
      destruct (Pos.compare_spec a b); simpl
  end.

(** Decides a statement about comparisons of spec floats whose constructors
    are known: the order is lexicographic in sign, exponent, mantissa. *)
Ltac sf_order :=
  unfold SFltb, SFleb, SFeqb, SFcompare;
  repeat match goal with
  | s : bool |- _ => destruct s
  end;
  simpl; intros; try discriminate; try reflexivity;
  cmp_cases; try discriminate; try reflexivity; try lia.

Lemma SFltb_trans (x y z : spec_float) :
  SFltb x y = true -> SFltb y z = true -> SFltb x z = true.
Proof.
  destruct x as [sx|sx| |sx mx ex], y as [sy|sy| |sy my ey],
           z as [sz|sz| |sz mz ez]; sf_order.
Qed.

Lemma SFltb_negtrans (x y z : spec_float) :
  sf_nan x = false -> sf_nan y = false -> sf_nan z = false ->
  SFltb x y = false -> SFltb y z = false -> SFltb x z = false.
Proof.
  destruct x as [sx|sx| |sx mx ex], y as [sy|sy| |sy my ey],
           z as [sz|sz| |sz mz ez]; sf_order.
Qed.

Lemma is_nan_spec (x : float) : is_nan x = sf_nan (Prim2SF x).
Proof.
  unfold is_nan. rewrite FloatAxioms.eqb_spec. unfold SFeqb.
  rewrite SFcompare_refl. now destruct (sf_nan (Prim2SF x)).
Qed.


Lemma ltb_trans (x y z : float) :
  (x <? y) = true -> (y <? z) = true -> (x <? z) = true.
Proof. rewrite !FloatAxioms.ltb_spec. apply SFltb_trans. Qed.

Lemma ltb_negtrans (x y z : float) :
  is_nan x = false -> is_nan y = false -> is_nan z = false ->
  (x <? y) = false -> (y <? z) = false -> (x <? z) = false.
Proof. rewrite !FloatAxioms.ltb_spec, !is_nan_spec. apply SFltb_negtrans. Qed.

Lemma ltb_not_nan (x y : float) :
  (x <? y) = true -> is_nan x = false /\ is_nan y = false.
Proof.
  rewrite FloatAxioms.ltb_spec, !is_nan_spec.
  destruct (Prim2SF x), (Prim2SF y); simpl; try discriminate; auto.
Qed.

Lemma leb_not_nan (x y : float) :
  (x <=? y) = true -> is_nan x = false /\ is_nan y = false.
Proof.
  rewrite FloatAxioms.leb_spec, !is_nan_spec.
  destruct (Prim2SF x), (Prim2SF y); simpl; try discriminate; auto.
Qed.

Lemma ltb_leb (x y : float) : (x <? y) = true -> (x <=? y) = true.
Proof.
  rewrite FloatAxioms.ltb_spec, FloatAxioms.leb_spec.
  unfold SFltb, SFleb. now destruct (SFcompare _ _) as [[| |]|].
Qed.

Lemma SFleb_total (x y : spec_float) :
  sf_nan x = false -> sf_nan y = false -> SFltb x y = false -> SFleb y x = true.
Proof.
  destruct x as [sx|sx| |sx mx ex], y as [sy|sy| |sy my ey]; sf_order.
Qed.

Lemma not_ltb_leb (x y : float) :
  is_nan x = false -> is_nan y = false -> (x <? y) = false -> (y <=? x) = true.
Proof.
  rewrite !is_nan_spec, FloatAxioms.ltb_spec, FloatAxioms.leb_spec.
  apply SFleb_total.
Qed.

Lemma infinity_spec : Prim2SF infinity = S754_infinity false.
Proof. vm_compute. reflexivity. Qed.

Lemma is_infinity_spec (x : float) : is_infinity x = sf_inf (Prim2SF x).
Proof.
  unfold is_infinity.
  rewrite FloatAxioms.eqb_spec, abs_spec, infinity_spec.
  now destruct (Prim2SF x) as [s|s| |s m e].
Qed.

Lemma is_finite_spec (x : float) : is_finite x = sf_number (Prim2SF x).
Proof.
  unfold is_finite. rewrite is_nan_spec, is_infinity_spec.
  now destruct (Prim2SF x).
Qed.

Lemma eqb_zero_spec (x : float) : (x =? 0) = sf_zero (Prim2SF x).
Proof.
  rewrite FloatAxioms.eqb_spec.
  replace (Prim2SF 0) with (S754_zero false) by (vm_compute; reflexivity).
  destruct (Prim2SF x) as [s|s| |s m e]; try reflexivity; now destruct s.
Qed.

Lemma eqb_infinity (x : float) : (x =? infinity) = true <-> x = infinity.
Proof.
  split; [|intros ->; vm_compute; reflexivity].
  rewrite FloatAxioms.eqb_spec, infinity_spec. intros H.
  apply Prim2SF_inj. rewrite infinity_spec.
  destruct (Prim2SF x) as [s|s| |s m e]; try discriminate;
    destruct s; try discriminate; reflexivity.
Qed.

(** Division by a zero never raises and never gives a number. *)
Lemma div_by_zero (x y : float) :
  (y =? 0) = true -> is_finite (x / y) = false.
Proof.
  rewrite eqb_zero_spec, is_finite_spec, div_spec. unfold SF64div.
  destruct (Prim2SF y); try discriminate. intros _.
  now destruct (Prim2SF x).
Qed.




Lemma mul_nan (x y : float) : is_nan y = true -> is_nan (x * y) = true.
Proof.
  rewrite !is_nan_spec, mul_spec. unfold SF64mul.
  destruct (Prim2SF y); try discriminate. now destruct (Prim2SF x).
Qed.

(** A value at most zero is neither a NaN, nor [+inf], nor positive. *)
Lemma leb_zero (x : float) :
  (x <=? 0) = true ->
  is_nan x = false /\ (x =? infinity) = false /\ (0 <? x) = false.
Proof.
  rewrite FloatAxioms.leb_spec, FloatAxioms.ltb_spec, FloatAxioms.eqb_spec,
          is_nan_spec, infinity_spec.
  replace (Prim2SF 0) with (S754_zero false) by (vm_compute; reflexivity).
  destruct (Prim2SF x) as [s|s| |s m e]; try discriminate; destruct s;
    try discriminate; auto.
Qed.


(** Around a positive constant [k] and its opposite [k']. *)
Section Threshold.
Variables (mk : positive) (ek : Z).
Let k := S754_finite false mk ek.
Let k' := S754_finite true mk ek.
Let z := S754_zero false.

Lemma abs_below (c : spec_float) :
  SFltb (SFabs c) k = true <-> SFltb k' c = true /\ SFltb c k = true.
Proof.
  subst k k'.
  destruct c as [s|s| |s m e];
    (split; [intros H; split; revert H|intros [H1 H2]; revert H1 H2]); sf_order.
Qed.

Lemma below_opposite (c : spec_float) :
  SFleb c k' = true <-> SFltb (SFabs c) k = false /\ SFltb c z = true.
Proof.
  subst k k' z.
  destruct c as [s|s| |s m e];
    (split; [intros H; split; revert H|intros [H1 H2]; revert H1 H2]); sf_order.
Qed.

Lemma above_constant (c : spec_float) :
  SFleb k c = true <->
  SFltb (SFabs c) k = false /\ SFltb c z = false /\ sf_nan c = false.
Proof.
  subst k k' z.
  destruct c as [s|s| |s m e];
    (split; [intros H; repeat split; revert H
            |intros (H1 & H2 & H3); revert H1 H2 H3]); sf_order.
Qed.

End Threshold.

End B64.


(** ** Rounding to binary64 does not overflow on small operands

    The rounding of the specification shifts the mantissa to the exponent of
    the format, rounds to nearest even, and shifts once more; the lemmas
    follow the number of binary digits through these steps. *)

Module Rounding.
Local Open Scope Z_scope.

Lemma digits2_succ (p : positive) :
  (Zpos (digits2_pos (Pos.succ p)) <= Zpos (digits2_pos p) + 1).
Proof. induction p; cbn [Pos.succ digits2_pos]; rewrite ?Pos2Z.inj_succ; lia. Qed.

Lemma Zdigits2_nonneg (m : Z) : 0 <= Zdigits2 m.
Proof. destruct m; simpl; lia. Qed.

Lemma Zdigits2_succ (m : Z) : 0 <= m -> Zdigits2 (m + 1) <= Zdigits2 m + 1.
Proof.
  destruct m as [|p|p]; try lia; intros _.
  - cbn. lia.
  - change (Z.pos p + 1) with (Z.pos (p + 1)). rewrite Pos.add_1_r.
    apply digits2_succ.
Qed.

Lemma digits2_shift (m d : positive) :
  Zpos (digits2_pos (Pos.iter xO m d)) = Zpos (digits2_pos m) + Zpos d.
Proof.
  induction d using Pos.peano_ind.
  - cbn [Pos.iter digits2_pos]. rewrite Pos2Z.inj_succ. lia.
  - rewrite Pos.iter_succ. cbn [digits2_pos]. rewrite !Pos2Z.inj_succ. lia.
Qed.

Lemma shr_1_digits (r : shr_record) :
  0 <= shr_m r ->
  0 <= shr_m (shr_1 r) /\ Zdigits2 (shr_m (shr_1 r)) <= Z.max 0 (Zdigits2 (shr_m r) - 1).
Proof.
  destruct r as [m b s]. unfold shr_1.
  destruct m as [|[p|p|]|p]; cbn [shr_m Zdigits2 digits2_pos];
    rewrite ?Pos2Z.inj_succ; lia.
Qed.

Lemma iter_shr_digits (p : positive) (r : shr_record) :
  0 <= shr_m r ->
  0 <= shr_m (SpecFloat.iter_pos shr_1 p r)
  /\ Zdigits2 (shr_m (SpecFloat.iter_pos shr_1 p r)) <= Z.max 0 (Zdigits2 (shr_m r) - Zpos p).
Proof.
  revert r. induction p as [p IH|p IH|]; intros r Hr; simpl.
  - destruct (shr_1_digits r Hr) as [H0 H1].
    destruct (IH _ H0) as [H2 H3]. destruct (IH _ H2) as [H4 H5]. lia.
  - destruct (IH _ Hr) as [H2 H3]. destruct (IH _ H2) as [H4 H5]. lia.
  - apply shr_1_digits, Hr.
Qed.

Lemma shr_record_of_loc_m (m : Z) (l : location) : shr_m (shr_record_of_loc m l) = m.
Proof. destruct l as [|[| |]]; reflexivity. Qed.

Lemma round_nearest_even_cases (m : Z) (l : location) :
  round_nearest_even m l = m \/ round_nearest_even m l = m + 1.
Proof. destruct l as [|[| |]]; simpl; auto. destruct (Z.even m); auto. Qed.

(** One shift to the exponent of the format: the mantissa stays
    non-negative, and digits plus exponent does not grow beyond the larger
    of the exponent and the former sum. *)
Lemma shr_fexp_bounds (m e : Z) (l : location) :
  0 <= m ->
  let '(r, e') := shr_fexp prec emax m e l in
  0 <= shr_m r
  /\ e' = Z.max e (fexp prec emax (Zdigits2 m + e))
  /\ Zdigits2 (shr_m r) + e' <= Z.max e' (Zdigits2 m + e).
Proof.
  intros Hm. unfold shr_fexp, shr.
  set (n := fexp prec emax (Zdigits2 m + e) - e).
  pose proof (shr_record_of_loc_m m l) as Hrec.
  destruct n as [|p|p] eqn:En.
  - rewrite Hrec. lia.
  - destruct (iter_shr_digits p (shr_record_of_loc m l)) as [H1 H2]; [lia|].
    rewrite Hrec in H2. lia.
  - rewrite Hrec. lia.
Qed.

Lemma binary_round_aux_number (sx : bool) (mx ex : Z) (lx : location) :
  0 <= mx -> ex <= 971 -> Zdigits2 mx + ex <= 1023 ->
  sf_number (binary_round_aux prec emax sx mx ex lx) = true.
Proof.
  intros Hm He Hd. unfold binary_round_aux.
  pose proof (shr_fexp_bounds mx ex lx Hm) as H1.
  destruct (shr_fexp prec emax mx ex lx) as [r1 e1].
  destruct H1 as (Hr1 & He1 & Hd1).
  set (m1 := round_nearest_even (shr_m r1) (loc_of_shr_record r1)).
  assert (Hm1 : 0 <= m1 /\ Zdigits2 m1 <= Zdigits2 (shr_m r1) + 1).
  { subst m1. destruct (round_nearest_even_cases (shr_m r1) (loc_of_shr_record r1)) as [-> | ->].
    - lia.
    - split; [lia|]. now apply Zdigits2_succ. }
  pose proof (shr_fexp_bounds m1 e1 loc_Exact (proj1 Hm1)) as H2.
  destruct (shr_fexp prec emax m1 e1 loc_Exact) as [r2 e2].
  destruct H2 as (Hr2 & He2 & Hd2).
  unfold fexp, emin, prec, emax in *.
  destruct (shr_m r2) as [|p|p] eqn:E; try reflexivity; [|lia].
  replace (e2 <=? 1024 - 53) with true; [reflexivity|].
  symmetry. apply Z.leb_le. lia.
Qed.

Lemma shl_align_digits (mx : positive) (ex ex' : Z) :
  let '(mz, ez) := shl_align mx ex ex' in
  ez = Z.min ex ex' /\ Zpos (digits2_pos mz) + ez = Zpos (digits2_pos mx) + ex.
Proof.
  unfold shl_align. destruct (ex' - ex) as [|d|d] eqn:E; try lia.
  rewrite digits2_shift. lia.
Qed.

Lemma binary_round_number (sx : bool) (mx : positive) (ex : Z) :
  ex <= 971 -> Zpos (digits2_pos mx) + ex <= 1023 ->
  sf_number (binary_round prec emax sx mx ex) = true.
Proof.
  intros He Hd. unfold binary_round.
  pose proof (shl_align_digits mx ex (fexp prec emax (Zpos (digits2_pos mx) + ex))) as H.
  destruct (shl_align _ _ _) as [mz ez]. destruct H as [H1 H2].
  apply binary_round_aux_number; cbn [Zdigits2]; lia.
Qed.

Lemma binary_normalize_number (m e : Z) (szero : bool) :
  e <= 971 -> Zdigits2 m + e <= 1023 ->
  sf_number (binary_normalize prec emax m e szero) = true.
Proof.
  intros He Hd. destruct m as [|p|p]; cbn [binary_normalize Zdigits2] in *.
  - reflexivity.
  - now apply binary_round_number.
  - now apply binary_round_number.
Qed.

(** [Zdigits2 m <= k] says [|m| < 2^k]. *)
Lemma digits2_size (p : positive) : digits2_pos p = Pos.size p.
Proof. induction p; simpl; congruence. Qed.

Lemma Zdigits2_le (m k : Z) : 0 <= k -> (Zdigits2 m <= k <-> Z.abs m < 2 ^ k).
Proof.
  intros Hk. destruct m as [|p|p]; cbn [Zdigits2 Z.abs].
  - split; intros _; [apply Z.pow_pos_nonneg|]; lia.
  - rewrite digits2_size, (Z.log2_lt_pow2 (Zpos p)) by lia.
    assert (Zpos (Pos.size p) = Z.log2 (Zpos p) + 1) as ->
      by (destruct p; cbn [Z.log2 Pos.size]; rewrite ?Pos2Z.inj_succ; lia).
    lia.
  - rewrite digits2_size, (Z.log2_lt_pow2 (Zpos p)) by lia.
    assert (Zpos (Pos.size p) = Z.log2 (Zpos p) + 1) as ->
      by (destruct p; cbn [Z.log2 Pos.size]; rewrite ?Pos2Z.inj_succ; lia).
    lia.
Qed.

Lemma Zdigits2_sum (a b k : Z) :
  0 <= k -> Zdigits2 a <= k -> Zdigits2 b <= k -> Zdigits2 (a - b) <= k + 1.
Proof.
  intros Hk Ha Hb.
  apply Zdigits2_le in Ha, Hb; try lia.
  rewrite Zdigits2_le by lia.
  replace (2 ^ (k + 1)) with (2 * 2 ^ k) by (rewrite Z.pow_add_r; lia).
  lia.
Qed.

Lemma Zdigits2_cond_Zopp (s : bool) (m : Z) : Zdigits2 (cond_Zopp s m) = Zdigits2 m.
Proof. destruct s, m; reflexivity. Qed.

Lemma SFsub_number (x y : spec_float) :
  sf_small x -> sf_small y -> sf_number (SFsub prec emax x y) = true.
Proof.
  destruct x as [sx|sx| |sx mx ex], y as [sy|sy| |sy my ey];
    cbn [sf_small]; try contradiction; intros Hx Hy.
  - now destruct sx, sy.
  - reflexivity.
  - reflexivity.
  - cbn [SFsub].
    set (ez := Z.min ex ey).
    pose proof (shl_align_digits mx ex ez) as Hax.
    pose proof (shl_align_digits my ey ez) as Hay.
    destruct (shl_align mx ex ez) as [ax ex'].
    destruct (shl_align my ey ez) as [ay ey'].
    cbn [fst].
    set (k := Z.max (Zpos (digits2_pos mx) + ex) (Zpos (digits2_pos my) + ey) - ez).
    assert (Hk : 0 <= k) by (subst k ez; lia).
    apply binary_normalize_number; [lia|].
    enough (Zdigits2 (cond_Zopp sx (Zpos ax) - cond_Zopp sy (Zpos ay)) <= k + 1)
      by (subst k; lia).
    apply Zdigits2_sum; try assumption;
      rewrite Zdigits2_cond_Zopp; cbn [Zdigits2]; subst k ez; lia.
Qed.

End Rounding.

(** ** The control surface *)

Lemma getitem_In (d : list (string * float)) (name : string) (f : float) :
  getitem d name = Some f -> In (name, f) d.
Proof.
  induction d as [|[k v] rest IH]; simpl; [discriminate|].
  destruct (String.eqb_spec k name) as [->|_].
  - intros [= ->]. now left.
  - intros Hg. right. now apply IH.
Qed.

Lemma getitem_absent (d : list (string * float)) (name : string) :
  ~ In name (map fst d) -> getitem d name = None.
Proof.
  induction d as [|[k v] rest IH]; simpl; [reflexivity|].
  intros Hn. destruct (String.eqb_spec k name) as [->|_].
  - exfalso. apply Hn. now left.
  - apply IH. intros Hin. apply Hn. now right.
Qed.

(** The keys of the table are the six names of [ORDERED_KEYS], each once. *)
Lemma table_keys : map fst GUITAR_STRINGS = ORDERED_KEYS /\ NoDup ORDERED_KEYS.
Proof.
  split; [reflexivity|].
  repeat constructor; simpl; intuition discriminate.
Qed.

Lemma table_lookup (n : string) (f : float) :
  In (n, f) GUITAR_STRINGS -> getitem GUITAR_STRINGS n = Some f /\ n <> "Auto".
Proof.
  simpl. intros Hin.
  repeat (destruct Hin as [[= <- <-]|Hin]; [split; [reflexivity|discriminate]|]).
  contradiction.
Qed.

Lemma set_note (self : AudioBackend) (n : string) (f : float) :
  In (n, f) GUITAR_STRINGS ->
  set_manual_target self n
  = ({| running := running self; manual_target := Some f |}, None).
Proof.
  intros Hin. destruct (table_lookup n f Hin) as [Hget Hauto].
  unfold set_manual_target.
  destruct (String.eqb_spec n "Auto") as [E|_]; [contradiction|].
  now rewrite Hget.
Qed.

(** C10: a string that is neither "Auto" nor one of the six note names makes
    [set_manual_target] raise [KeyError] and leaves the stored manual target
    (the whole object) unchanged; "Auto" resets the manual target to [None];
    a note name of the table stores exactly that note's frequency. *)
Theorem set_manual_target_cases (self : AudioBackend) :
  (forall s, s <> "Auto" -> ~ In s ORDERED_KEYS ->
     set_manual_target self s = (self, Some (KeyError s)))
  /\ (exists self', set_manual_target self "Auto" = (self', None)
                    /\ manual_target self' = None)
  /\ (forall n f, In (n, f) GUITAR_STRINGS ->
        exists self', set_manual_target self n = (self', None)
                      /\ manual_target self' = Some f).
Proof.
  split; [|split].
  - intros s Hauto Hkeys. unfold set_manual_target.
    destruct (String.eqb_spec s "Auto") as [E|_]; [contradiction|].
    rewrite getitem_absent; [reflexivity|].
    now rewrite (proj1 table_keys).
  - eexists. split; reflexivity.
  - intros n f Hin. rewrite (set_note self n f Hin).
    eexists. split; reflexivity.
Qed.

(** A mistyped name on a backend locked to A2: the call raises and the lock
    stays; then "Auto" and "E4". *)
Lemma set_manual_target_cases_witness :
  let locked := {| running := true; manual_target := Some 110 |} in
  set_manual_target locked "E5" = (locked, Some (KeyError "E5"))
  /\ (exists self', set_manual_target locked "Auto" = (self', None)
                    /\ manual_target self' = None)
  /\ (exists self', set_manual_target locked "E4" = (self', None)
                    /\ manual_target self' = Some 329.63).
Proof.
  intros locked.
  destruct (set_manual_target_cases locked) as (Hbad & Hauto & Hgood).
  split; [|split].
  - apply Hbad; [discriminate|].
    simpl. intuition discriminate.
  - exact Hauto.
  - apply Hgood. simpl. tauto.
Defined.

(** ** Target selection: the manual branch *)

(** C4: with the manual target set to a note of the table, the target is that
    note's frequency and name whatever the detected frequency is; this is so
    in particular after [set_manual_target] was called with the note's name. *)
Theorem manual_target_locks (n : string) (f freq : float) :
  In (n, f) GUITAR_STRINGS ->
  determine_target (Some f) freq = (f, n)
  /\ forall self,
       determine_target (manual_target (fst (set_manual_target self n))) freq
       = (f, n).
Proof.
  intros Hin.
  assert (Hlock : determine_target (Some f) freq = (f, n)).
  { simpl in Hin.
    repeat (destruct Hin as [[= <- <-]|Hin]; [vm_compute; reflexivity|]).
    contradiction. }
  split; [exact Hlock|]. intros self.
  rewrite (set_note self n f Hin). exact Hlock.
Qed.

(** Locked to E2 while the string sounds at the frequency of E4: the target
    stays E2, where the automatic search answers E4. *)
Lemma manual_target_locks_witness :
  determine_target (Some 82.41) 329.63 = (82.41, "E2")
  /\ determine_target None 329.63 = (329.63, "E4").
Proof.
  split.
  - apply (manual_target_locks "E2" 82.41 329.63). simpl. tauto.
  - vm_compute. reflexivity.
Defined.

(** ** The volume gate *)



(** ** Sub-sample refinement *)

Lemma interior_bounds (corr : list float) (peak : nat) :
  interior corr peak = true <-> (0 < peak < List.length corr - 1)%nat.
Proof.
  unfold interior. rewrite andb_true_iff, !Nat.ltb_lt. tauto.
Qed.

Lemma detect_frequency (K : Kernels) (manual : option float) (corr : list float)
      (peak : nat) (r : Reading) :
  find_peak corr = Some peak ->
  emitted (detect K manual corr) = Some r ->
  frequency r = SAMPLE_RATE / peak_refined corr peak /\ isActive r = true.
Proof.
  intros Hp. unfold detect. rewrite Hp. unfold freq_of_lag.
  destruct (implausible _); [discriminate|].
  destruct (determine_target _ _) as [t n]. simpl.
  intros [= <-]. split; reflexivity.
Qed.

(** C6: when the candidate peak is strictly inside the correlation array, the
    lag that is converted to a frequency is
    peak + (c[peak-1] - c[peak+1]) / (2 * (c[peak-1] - 2*c[peak] + c[peak+1])),
    the three values being the entries of the array at those indices; when
    the peak is at index 0 or at the last index the lag is the integer peak. *)
Theorem refinement_formula (K : Kernels) (manual : option float)
        (corr : list float) (peak : nat) :
  find_peak corr = Some peak ->
  ((0 < peak < List.length corr - 1)%nat ->
     exists a b g,
       nth_error corr (peak - 1) = Some a
       /\ nth_error corr peak = Some b
       /\ nth_error corr (peak + 1) = Some g
       /\ peak_refined corr peak
          = Py.of_nat peak + (a - g) / (2 * (a - 2 * b + g)))
  /\ ((peak = 0 \/ peak = List.length corr - 1)%nat ->
        peak_refined corr peak = Py.of_nat peak)
  /\ (forall r, emitted (detect K manual corr) = Some r ->
        frequency r = SAMPLE_RATE / peak_refined corr peak).
Proof.
  intros Hp. split; [|split].
  - intros Hin.
    exists (alpha corr peak), (beta corr peak), (gamma corr peak).
    unfold alpha, beta, gamma.
    repeat split; try (apply nth_error_nth'; lia).
    unfold peak_refined. rewrite (proj2 (interior_bounds corr peak) Hin).
    reflexivity.
  - intros Hb. unfold peak_refined.
    destruct (interior corr peak) eqn:Hi; [|reflexivity].
    apply interior_bounds in Hi. lia.
  - intros r Hr. now destruct (detect_frequency K manual corr peak r Hp Hr).
Qed.

(** A peak at index 3 of five entries is refined with the entries 2, 3 and
    2.5 around it; the same peak at the last index of four entries is not. *)
Lemma refinement_formula_witness :
  find_peak [4; 1; 2; 3; 2.5] = Some 3%nat
  /\ peak_refined [4; 1; 2; 3; 2.5] 3 = 3 + (2 - 2.5) / (2 * (2 - 2 * 3 + 2.5))
  /\ find_peak [4; 1; 2; 3] = Some 3%nat
  /\ peak_refined [4; 1; 2; 3] 3 = 3.
Proof.
  assert (H1 : find_peak [4; 1; 2; 3; 2.5] = Some 3%nat) by (vm_compute; reflexivity).
  assert (H2 : find_peak [4; 1; 2; 3] = Some 3%nat) by (vm_compute; reflexivity).
  destruct (refinement_formula stand_in None _ _ H1) as (Hin & _ & _).
  destruct (refinement_formula stand_in None _ _ H2) as (_ & Hbd & _).
  split; [exact H1|]. split; [|split; [exact H2|]].
  - destruct Hin as (a & b & g & Ha & Hb & Hg & Hlag); [simpl; lia|].
    simpl in Ha, Hb, Hg.
    injection Ha as <-. injection Hb as <-. injection Hg as <-.
    exact Hlag.
  - apply Hbd. right. reflexivity.
Defined.

(** ** Buffers that yield no reading *)

(** C7: a voiced buffer whose correlation has no positive first difference,
    or whose converted frequency is below 60 Hz or above 500 Hz, makes the
    callback run not at all in that iteration (no voiced reading, no silence
    reading, no sleep), and the loop goes on with the next buffer. *)
Theorem no_detection_no_reading (K : Kernels) (self : AudioBackend)
        (samples corr : list float) (rest : list Capture) :
  (np_rms K samples <? NOISE_THRESHOLD) = false ->
  np_autocorr K samples = Some corr ->
  (Py.first_positive (Py.diff corr) = None
   \/ exists peak, find_peak corr = Some peak
        /\ ((SAMPLE_RATE / peak_refined corr peak <? 60) = true
            \/ (500 <? SAMPLE_RATE / peak_refined corr peak) = true)) ->
  iteration K self (Frames samples) = {| emitted := None; pause := NoPause |}
  /\ process_loop K self (Frames samples :: rest) = process_loop K self rest.
Proof.
  intros Hloud Hcorr Hno.
  assert (Hskip : iteration K self (Frames samples) = skip).
  { unfold iteration. rewrite Hloud, Hcorr. unfold detect.
    destruct Hno as [Hnone|(peak & Hp & Hout)].
    - unfold find_peak. rewrite Hnone. reflexivity.
    - rewrite Hp. unfold implausible, freq_of_lag.
      destruct Hout as [-> | ->]; [reflexivity|].
      rewrite orb_true_r. reflexivity. }
  split; [exact Hskip|].
  cbn [process_loop]. rewrite Hskip. cbn [emitted skip].
  destruct (running self) eqn:E; [reflexivity|].
  destruct rest; cbn [process_loop]; rewrite ?E; reflexivity.
Qed.

(** A single click has a correlation that only falls; a buffer alternating
    between 1 and 0 peaks at lag 2, which is 22050 Hz.  Neither reaches the
    callback, and the quiet buffer that follows is reported as usual. *)
Lemma no_detection_no_reading_witness :
  process_loop stand_in (start init_backend)
    [Frames [1; 0; 0; 0]; Frames [1; 0; 1; 0]; Frames [0; 0; 0; 0]]
  = [silence].
Proof.
  rewrite (proj2 (no_detection_no_reading stand_in (start init_backend)
                    [1; 0; 0; 0] [1; 0; 0; 0] _
                    ltac:(vm_compute; reflexivity) ltac:(vm_compute; reflexivity)
                    ltac:(left; vm_compute; reflexivity))).
  rewrite (proj2 (no_detection_no_reading stand_in (start init_backend)
                    [1; 0; 1; 0] [2; 0; 1; 0] _
                    ltac:(vm_compute; reflexivity) ltac:(vm_compute; reflexivity)
                    ltac:(right; exists 2%nat; split;
                          [vm_compute; reflexivity|right; vm_compute; reflexivity]))).
  vm_compute. reflexivity.
Defined.

(** ** The display *)

Lemma five_spec :
  exists m e, Prim2SF 5 = S754_finite false m e
              /\ Prim2SF (-5) = S754_finite true m e.
Proof. do 2 eexists. split; vm_compute; reflexivity. Qed.

Lemma zero_spec : Prim2SF 0 = S754_zero false.
Proof. vm_compute. reflexivity. Qed.

Lemma tuning_float (c : float) :
  tuning c = if abs c <? 5 then Perfect else if c <? 0 then Flat else Sharp.
Proof. reflexivity. Qed.

(** What [update_ui] shows for an active reading follows the three branches. *)
Lemma update_ui_tuning {T : Type} `{Number T} (freq c : T) (name : string) :
  let v := update_ui freq c name true in
  note_text v = name /\ bar_value v = normalized_val c
  /\ (bar_color v, guide_text v)
     = match tuning c with
       | Perfect => (GREEN, "PERFECT")
       | Flat => (ORANGE, "Too Flat (Tune Up)")
       | Sharp => (RED, "Too Sharp (Tune Down)")
       end.
Proof. unfold update_ui. simpl. destruct (tuning c); repeat split. Qed.

(** C9: the state is "perfect" exactly when abs(cents) < 5, which is the open
    interval (-5, 5) and contains 0; it is "flat" when cents <= -5 and "sharp"
    when cents >= 5; every cents value gets exactly one of the three states,
    and a "flat" one is <= -5, a "sharp" one >= 5 (or not a number). *)
Theorem tuning_thresholds (c : float) :
  (tuning c = Perfect <-> (abs c <? 5) = true)
  /\ ((abs c <? 5) = true <-> (-5 <? c) = true /\ (c <? 5) = true)
  /\ tuning (0 : float) = Perfect
  /\ ((c <=? -5) = true <-> tuning c = Flat)
  /\ ((5 <=? c) = true -> tuning c = Sharp)
  /\ (tuning c = Sharp -> (5 <=? c) = true \/ is_nan c = true)
  /\ (forall freq name,
        guide_text (update_ui freq c name true)
        = match tuning c with
          | Perfect => "PERFECT"
          | Flat => "Too Flat (Tune Up)"
          | Sharp => "Too Sharp (Tune Down)"
          end).
Proof.
  destruct five_spec as (m & e & H5 & H5').
  pose proof (B64.abs_below m e (Prim2SF c)) as Habs.
  pose proof (B64.below_opposite m e (Prim2SF c)) as Hflat.
  pose proof (B64.above_constant m e (Prim2SF c)) as Hsharp.
  rewrite <- H5, <- H5', <- zero_spec, <- abs_spec in *.
  rewrite <- !FloatAxioms.ltb_spec, <- ?FloatAxioms.leb_spec,
          <- ?B64.is_nan_spec in *.
  rewrite tuning_float.
  split; [|split; [|split; [|split; [|split; [|split]]]]].
  - destruct (abs c <? 5); [tauto|].
    destruct (c <? 0); split; discriminate.
  - exact Habs.
  - vm_compute. reflexivity.
  - rewrite Hflat. destruct (abs c <? 5).
    + intuition discriminate.
    + destruct (c <? 0); intuition discriminate.
  - intros H. destruct (proj1 Hsharp H) as (E1 & E2 & _).
    rewrite E1, E2. reflexivity.
  - destruct (abs c <? 5) eqn:E1; [discriminate|].
    destruct (c <? 0) eqn:E2; [discriminate|]. intros _.
    destruct (is_nan c) eqn:E3; [now right|left].
    apply Hsharp. auto.
  - intros freq name.
    pose proof (update_ui_tuning freq c name) as (_ & _ & Hv).
    apply (f_equal snd) in Hv. simpl in Hv. rewrite Hv, tuning_float.
    destruct (abs c <? 5); [reflexivity|]. destruct (c <? 0); reflexivity.
Qed.

Lemma tuning_thresholds_witness :
  tuning (-5) = Flat /\ tuning 5 = Sharp /\ tuning (-4.99) = Perfect.
Proof.
  split; [|split].
  - apply (proj1 (proj1 (proj2 (proj2 (proj2 (tuning_thresholds (-5))))))).
    vm_compute. reflexivity.
  - apply (proj1 (proj2 (proj2 (proj2 (proj2 (tuning_thresholds 5)))))).
    vm_compute. reflexivity.
  - apply (proj1 (tuning_thresholds (-4.99))).
    apply (proj1 (proj2 (tuning_thresholds (-4.99)))).
    split; vm_compute; reflexivity.
Defined.

(** The bar value in exact arithmetic. *)

Section ExactDisplay.
Local Open Scope Q_scope.








End ExactDisplay.

(** ** Cents *)

(** C2, as claimed, fails on a zero target: the quotient of a positive
    frequency by zero is [+inf] (numpy warns and does not raise), [math.log2]
    returns [+inf] for it, and the cents are [+inf], not 0. *)
Lemma cents_zero_target_counterexample :
  ((0 : float) =? 0) = true
  /\ (forall K, cents_of K 100 0 = infinity)
  /\ (infinity =? 0) = false.
Proof. repeat split. Qed.

(** C2 amended: no ratio raises an error.  A ratio that is zero, negative or
    [-inf] gives cents = 0 (the [ValueError] is caught); a ratio that is
    positive and finite gives cents = 1200 * log2(ratio); a NaN ratio gives
    NaN cents and a [+inf] ratio gives [+inf] cents, and a zero target always
    makes the ratio an infinity or a NaN. *)
Theorem cents_guard (K : Kernels) (freq target : float) :
  let ratio := freq / target in
  ((ratio <=? 0) = true -> cents_of K freq target = 0)
  /\ ((0 <? ratio) = true -> (ratio <? infinity) = true ->
      cents_of K freq target = 1200 * libm_log2 K ratio)
  /\ (is_nan ratio = true -> is_nan (cents_of K freq target) = true)
  /\ ((ratio =? infinity) = true -> cents_of K freq target = infinity)
  /\ ((target =? 0) = true -> is_finite ratio = false).
Proof.
  intros ratio. unfold cents_of, math_log2. fold ratio.
  split; [|split; [|split; [|split]]].
  - intros H. destruct (B64.leb_zero ratio H) as (-> & -> & ->). reflexivity.
  - intros Hpos Hfin. destruct (B64.ltb_not_nan _ _ Hpos) as [_ ->].
    destruct (ratio =? infinity) eqn:E.
    + apply B64.eqb_infinity in E. rewrite E in Hfin. discriminate.
    + rewrite Hpos. reflexivity.
  - intros H. rewrite H. now apply B64.mul_nan.
  - intros H. apply B64.eqb_infinity in H. rewrite H. reflexivity.
  - apply B64.div_by_zero.
Qed.

(** An octave above the target is 1200 cents (the stand-in logarithm is exact
    at 2); a negative frequency against a positive target gives 0. *)
Lemma cents_guard_witness :
  cents_of stand_in 220 110 = 1200 /\ cents_of stand_in (-220) 110 = 0.
Proof.
  destruct (cents_guard stand_in 220 110) as (_ & Hpos & _).
  destruct (cents_guard stand_in (-220) 110) as (Hneg & _).
  split.
  - rewrite Hpos; reflexivity.
  - apply Hneg. reflexivity.
Defined.

(** ** A zero refinement denominator *)




(** ** Target selection: the automatic search *)

Local Open Scope list_scope.

(** A frequency inside the plausible range is small in the sense above. *)
Lemma plausible_small (freq : float) :
  (60 <=? freq) = true -> (freq <=? 500) = true -> sf_small (Prim2SF freq).
Proof.
  rewrite !FloatAxioms.leb_spec.
  assert (exists m, Prim2SF 60 = S754_finite false m (-47)) as (m60 & ->)
    by (eexists; vm_compute; reflexivity).
  assert (exists m, Prim2SF 500 = S754_finite false m (-44)) as (m500 & ->)
    by (eexists; vm_compute; reflexivity).
  pose proof (Prim2SF_valid freq) as Hvalid. intros Hlo Hle.
  destruct (Prim2SF freq) as [[|]|[|]| |[|] m e]; try discriminate.
  assert (He : (e <= -44)%Z).
  { revert Hle. unfold SFleb, SFcompare.
    destruct (Z.compare_spec e (-44)); [lia|lia|discriminate]. }
  cbn [valid_binary] in Hvalid. unfold bounded, canonical_mantissa in Hvalid.
  apply andb_true_iff in Hvalid as [Hcanon _].
  apply Z.eqb_eq in Hcanon. unfold fexp, emin, prec, emax in Hcanon.
  cbn [sf_small]. lia.
Qed.

Lemma table_small (n : string) (f : float) :
  In (n, f) GUITAR_STRINGS -> sf_small (Prim2SF f).
Proof.
  simpl. intros Hin.
  repeat (destruct Hin as [[= <- <-]|Hin];
          [vm_compute; split; discriminate|]).
  contradiction.
Qed.

(** The distance of a plausible frequency to a table entry is a number. *)
Lemma dist_finite (freq : float) (entry : string * float) :
  (60 <=? freq) = true -> (freq <=? 500) = true ->
  In entry GUITAR_STRINGS -> is_finite (dist freq entry) = true.
Proof.
  intros Hlo Hhi Hin. destruct entry as [n f]. unfold dist. cbn [snd].
  rewrite B64.is_finite_spec, abs_spec, sub_spec.
  pose proof (Rounding.SFsub_number _ _ (table_small n f Hin)
                                        (plausible_small freq Hlo Hhi)) as H.
  unfold SF64sub. now destruct (SFsub prec emax (Prim2SF f) (Prim2SF freq)).
Qed.

Lemma finite_not_nan (x : float) : is_finite x = true -> is_nan x = false.
Proof.
  unfold is_finite. rewrite negb_true_iff, orb_false_iff. tauto.
Qed.

Lemma finite_below_infinity (x : float) :
  is_finite x = true -> (x <? infinity) = true.
Proof.
  rewrite B64.is_finite_spec, FloatAxioms.ltb_spec, B64.infinity_spec.
  destruct (Prim2SF x) as [s|s| |s m e]; try discriminate; reflexivity.
Qed.

Lemma closer_dist (freq md t : float) (n n' : string) (f' : float) :
  closer freq (md, t, n) (n', f')
  = if dist freq (n', f') <? md then (dist freq (n', f'), f', n') else (md, t, n).
Proof. reflexivity. Qed.

Lemma closer_searched (freq : float) (seen : list (string * float))
      (st : float * float * string) (e : string * float) :
  (forall x, In x seen -> is_finite (dist freq x) = true) ->
  is_finite (dist freq e) = true ->
  searched freq seen st ->
  searched freq (seen ++ [e]) (closer freq st e).
Proof.
  intros Hseen He Hst. destruct st as [[md t] n], e as [n' f'].
  rewrite closer_dist.
  destruct Hst as [[-> [= -> -> ->]]|(pre & post & -> & Hmd & Hpre & Hpost)].
  - rewrite (finite_below_infinity _ He). right.
    exists [], []. repeat split; intros x [].
  - destruct (dist freq (n', f') <? md) eqn:Hlt.
    + right. exists (pre ++ (n, t) :: post), [].
      split; [reflexivity|]. split; [reflexivity|].
      split; [|intros x []].
      intros x Hx. apply in_app_or in Hx as [Hx|[<-|Hx]].
      * apply (B64.ltb_trans _ md); [exact Hlt|now apply Hpre].
      * unfold dist at 2. cbn [snd]. now rewrite <- Hmd.
      * destruct (dist freq (n', f') <? dist freq x) eqn:Hc; [reflexivity|].
        exfalso.
        assert (Hx' : In x (pre ++ (n, t) :: post))
          by (apply in_or_app; right; now right).
        assert (Ht : In (n, t) (pre ++ (n, t) :: post))
          by (apply in_or_app; right; now left).
        pose proof (finite_not_nan _ (Hseen _ Hx')) as Nx.
        pose proof (finite_not_nan _ (Hseen _ Ht)) as Nt.
        unfold dist at 1 in Nt. cbn [snd] in Nt. rewrite <- Hmd in Nt.
        pose proof (B64.ltb_negtrans _ _ _ (finite_not_nan _ He) Nx Nt
                      Hc (Hpost x Hx)) as Habs.
        congruence.
    + right. exists pre, (post ++ [(n', f')]).
      split; [now rewrite <- app_assoc|]. split; [exact Hmd|].
      split; [exact Hpre|].
      intros x Hx. apply in_app_or in Hx as [Hx|[<-|[]]]; [now apply Hpost|exact Hlt].
Qed.

Lemma fold_searched (freq : float) (rest seen : list (string * float))
      (st : float * float * string) :
  (forall x, In x (seen ++ rest) -> is_finite (dist freq x) = true) ->
  searched freq seen st ->
  searched freq (seen ++ rest) (fold_left (closer freq) rest st).
Proof.
  revert seen st. induction rest as [|e rest IH]; intros seen st Hfin Hst.
  - now rewrite app_nil_r.
  - cbn [fold_left].
    replace (seen ++ e :: rest) with ((seen ++ [e]) ++ rest) in *
      by (now rewrite <- app_assoc).
    apply IH; [exact Hfin|].
    apply closer_searched; [| |exact Hst].
    + intros x Hx. apply Hfin, in_or_app. left. apply in_or_app. now left.
    + apply Hfin, in_or_app. left. apply in_or_app. right. now left.
Qed.

(** The frequencies that reach the target selection as numbers are those
    between 60 and 500. *)
Lemma plausible_range (freq : float) :
  implausible freq = false /\ is_nan freq = false
  <-> (60 <=? freq) = true /\ (freq <=? 500) = true.
Proof.
  unfold implausible. rewrite orb_false_iff. split.
  - intros [[Hlo Hhi] Hnan]. split; apply B64.not_ltb_leb; auto.
  - intros [Hlo Hhi]. destruct (B64.leb_not_nan _ _ Hlo) as [_ Hnan].
    repeat split; [| |exact Hnan].
    + destruct (freq <? 60) eqn:E; [|reflexivity].
      revert Hlo E. rewrite FloatAxioms.leb_spec, FloatAxioms.ltb_spec.
      generalize (Prim2SF 60), (Prim2SF freq). intros x y. revert x y.
      intros [sx|sx| |sx mx ex] [sy|sy| |sy my ey]; B64.sf_order.
    + destruct (500 <? freq) eqn:E; [|reflexivity].
      revert Hhi E. rewrite FloatAxioms.leb_spec, FloatAxioms.ltb_spec.
      generalize (Prim2SF 500), (Prim2SF freq). intros x y. revert x y.
      intros [sx|sx| |sx mx ex] [sy|sy| |sy my ey]; B64.sf_order.
Qed.



(** * Further properties of the code *)

(** ** More of the binary64 order *)

Module F64.

Lemma SFleb_refl (x : spec_float) : sf_nan x = false -> SFleb x x = true.
Proof.
  intros H. unfold SFleb. rewrite B64.SFcompare_refl, H. reflexivity.
Qed.

Lemma SFleb_ltb_trans (x y z : spec_float) :
  SFleb x y = true -> SFltb y z = true -> SFltb x z = true.
Proof.
  destruct x as [sx|sx| |sx mx ex], y as [sy|sy| |sy my ey],
           z as [sz|sz| |sz mz ez]; B64.sf_order.
Qed.

Lemma SFnot_leb_ltb (x y : spec_float) :
  sf_nan x = false -> sf_nan y = false -> SFleb x y = false -> SFltb y x = true.
Proof.
  destruct x as [sx|sx| |sx mx ex], y as [sy|sy| |sy my ey]; B64.sf_order.
Qed.

Lemma leb_refl (x : float) : is_nan x = false -> (x <=? x) = true.
Proof. rewrite B64.is_nan_spec, FloatAxioms.leb_spec. apply SFleb_refl. Qed.

Lemma leb_ltb_trans (x y z : float) :
  (x <=? y) = true -> (y <? z) = true -> (x <? z) = true.
Proof.
  rewrite FloatAxioms.leb_spec, !FloatAxioms.ltb_spec. apply SFleb_ltb_trans.
Qed.

Lemma not_leb_ltb (x y : float) :
  is_nan x = false -> is_nan y = false -> (x <=? y) = false -> (y <? x) = true.
Proof.
  rewrite !B64.is_nan_spec, FloatAxioms.leb_spec, FloatAxioms.ltb_spec.
  apply SFnot_leb_ltb.
Qed.

(** A NaN compares false with everything and spreads through the
    arithmetic. *)
Lemma ltb_nan (x y : float) : is_nan x = true -> (x <? y) = false.
Proof.
  rewrite B64.is_nan_spec, FloatAxioms.ltb_spec.
  destruct (Prim2SF x); try discriminate. reflexivity.
Qed.

Lemma ltb_nan_r (x y : float) : is_nan y = true -> (x <? y) = false.
Proof.
  rewrite B64.is_nan_spec, FloatAxioms.ltb_spec.
  destruct (Prim2SF y); try discriminate. now destruct (Prim2SF x).
Qed.

Lemma sub_nan (x y : float) : is_nan y = true -> is_nan (x - y) = true.
Proof.
  rewrite !B64.is_nan_spec, sub_spec. unfold SF64sub.
  destruct (Prim2SF y); try discriminate. now destruct (Prim2SF x).
Qed.

Lemma abs_nan (x : float) : is_nan (abs x) = is_nan x.
Proof.
  rewrite !B64.is_nan_spec, abs_spec. now destruct (Prim2SF x).
Qed.

Lemma div_nan (x y : float) : is_nan y = true -> is_nan (x / y) = true.
Proof.
  rewrite !B64.is_nan_spec, div_spec. unfold SF64div.
  destruct (Prim2SF y); try discriminate. now destruct (Prim2SF x).
Qed.

Lemma nan_div (x y : float) : is_nan x = true -> is_nan (x / y) = true.
Proof.
  rewrite !B64.is_nan_spec, div_spec. unfold SF64div.
  destruct (Prim2SF x); try discriminate. reflexivity.
Qed.

End F64.

(** ** The peak search *)

Lemma diff_length (c : list float) : List.length (Py.diff c) = (List.length c - 1)%nat.
Proof.
  induction c as [|a [|b t] IH]; try reflexivity.
  cbn [Py.diff List.length] in *. lia.
Qed.

Lemma first_positive_some (d : list float) (i : nat) :
  Py.first_positive d = Some i ->
  (i < List.length d)%nat
  /\ (0 <? nth i d 0) = true
  /\ forall j, (j < i)%nat -> (0 <? nth j d 0) = false.
Proof.
  revert i. induction d as [|x t IH]; intros i; cbn [Py.first_positive].
  - discriminate.
  - destruct (0 <? x) eqn:E.
    + intros [= <-]. cbn. repeat split; [lia|exact E|intros j Hj; lia].
    + destruct (Py.first_positive t) as [i'|]; [|discriminate].
      intros [= <-]. destruct (IH i' eq_refl) as (H1 & H2 & H3).
      cbn [List.length nth]. repeat split; [lia|exact H2|].
      intros [|j] Hj; [exact E|apply H3; lia].
Qed.

Lemma first_positive_none (d : list float) :
  Py.first_positive d = None <-> forall x, In x d -> (0 <? x) = false.
Proof.
  induction d as [|x t IH]; cbn [Py.first_positive].
  - split; [intros _ x []|reflexivity].
  - destruct (0 <? x) eqn:E.
    + split; [discriminate|]. intros H. rewrite (H x) in E; [discriminate|now left].
    + destruct (Py.first_positive t) as [i|].
      * split; [discriminate|]. intros H.
        assert (X : Some i = None)
          by (apply (proj2 IH); intros y Hy; apply H; now right).
        discriminate.
      * split; [|reflexivity]. intros _ y [<-|Hy]; [exact E|].
        now apply (proj1 IH).
Qed.

(** The scan after the entries [seen], none of them a NaN: [mp] is the entry
    at [best], no entry is above it, and those before [best] are strictly
    below. *)
Lemma argmax_scan_max (l seen : list float) (mp : float) (best : nat) :
  (best < List.length seen)%nat ->
  nth best seen 0 = mp ->
  (forall y, In y (seen ++ l) -> is_nan y = false) ->
  (forall j, (j < List.length seen)%nat -> (nth j seen 0 <=? mp) = true) ->
  (forall j, (j < best)%nat -> (nth j seen 0 <? mp) = true) ->
  let k := Py.argmax_scan mp best (List.length seen) l in
  (k < List.length (seen ++ l))%nat
  /\ (forall j, (j < List.length (seen ++ l))%nat ->
        (nth j (seen ++ l) 0 <=? nth k (seen ++ l) 0) = true)
  /\ (forall j, (j < k)%nat ->
        (nth j (seen ++ l) 0 <? nth k (seen ++ l) 0) = true).
Proof.
  revert seen mp best. induction l as [|x t IH]; intros seen mp best Hb Hmp Hnan Hle Hlt.
  - cbn [Py.argmax_scan]. rewrite app_nil_r, Hmp. auto.
  - cbn [Py.argmax_scan].
    assert (Nx : is_nan x = false)
      by (apply Hnan, in_or_app; right; now left).
    assert (Nmp : is_nan mp = false)
      by (apply Hnan, in_or_app; left; rewrite <- Hmp; now apply nth_In).
    assert (Hlen : List.length (seen ++ [x]) = S (List.length seen))
      by (rewrite length_app; cbn; lia).
    replace (seen ++ x :: t) with ((seen ++ [x]) ++ t) in *
      by (now rewrite <- app_assoc).
    rewrite <- Hlen.
    destruct (x <=? mp) eqn:E.
    + apply IH; [lia| |exact Hnan| |].
      * rewrite app_nth1 by exact Hb. exact Hmp.
      * intros j Hj. destruct (Nat.eq_dec j (List.length seen)) as [->|Hne].
        -- now rewrite nth_middle.
        -- rewrite app_nth1 by lia. apply Hle. lia.
      * intros j Hj. rewrite app_nth1 by lia. now apply Hlt.
    + rewrite Nx.
      pose proof (F64.not_leb_ltb _ _ Nx Nmp E) as Hup.
      apply IH; [lia| |exact Hnan| |].
      * now rewrite nth_middle.
      * intros j Hj. destruct (Nat.eq_dec j (List.length seen)) as [->|Hne].
        -- rewrite nth_middle. now apply F64.leb_refl.
        -- rewrite app_nth1 by lia. apply B64.ltb_leb.
           apply (F64.leb_ltb_trans _ mp); [apply Hle; lia|exact Hup].
      * intros j Hj. rewrite app_nth1 by lia.
        apply (F64.leb_ltb_trans _ mp); [apply Hle; lia|exact Hup].
Qed.

Lemma argmax_max (l : list float) (k : nat) :
  (forall y, In y l -> is_nan y = false) ->
  Py.argmax l = Some k ->
  (k < List.length l)%nat
  /\ (forall j, (j < List.length l)%nat -> (nth j l 0 <=? nth k l 0) = true)
  /\ (forall j, (j < k)%nat -> (nth j l 0 <? nth k l 0) = true).
Proof.
  destruct l as [|x t]; [discriminate|]. intros Hnan. cbn [Py.argmax].
  assert (Nx : is_nan x = false) by (apply Hnan; now left).
  rewrite Nx. intros [= <-].
  apply (argmax_scan_max t [x] x 0); cbn [List.length]; try lia; auto.
  - intros [|j] Hj; [cbn; now apply F64.leb_refl|lia].
Qed.

Lemma argmax_bound (l : list float) (k : nat) :
  Py.argmax l = Some k -> (k < List.length l)%nat.
Proof.
  assert (Hscan : forall t mp best i,
             (best < i)%nat ->
             (Py.argmax_scan mp best i t < i + List.length t)%nat).
  { induction t as [|x t IH]; intros mp best i Hb; cbn [Py.argmax_scan List.length].
    - lia.
    - destruct (x <=? mp).
      + specialize (IH mp best (S i)). lia.
      + destruct (is_nan x); [lia|]. specialize (IH x i (S i)). lia. }
  destruct l as [|x t]; [discriminate|]. cbn [Py.argmax List.length].
  destruct (is_nan x); intros [= <-]; [lia|].
  specialize (Hscan t x 0%nat 1%nat). lia.
Qed.

Lemma diff_nth (c : list float) (i : nat) :
  (i + 1 < List.length c)%nat ->
  nth i (Py.diff c) 0 = nth (i + 1) c 0 - nth i c 0.
Proof.
  revert i. induction c as [|a [|b t] IH]; intros i Hi; cbn [List.length] in Hi; try lia.
  destruct i as [|i]; [reflexivity|].
  change (Py.diff (a :: b :: t)) with ((b - a) :: Py.diff (b :: t)).
  cbn [nth Nat.add]. apply IH. cbn [List.length]. lia.
Qed.

(** The first rise of the array: [start], or nothing. *)
Lemma first_rise (corr : list float) (start : nat) :
  Py.first_positive (Py.diff corr) = Some start ->
  (start + 1 < List.length corr)%nat
  /\ (0 <? nth (start + 1) corr 0 - nth start corr 0) = true
  /\ forall j, (j < start)%nat ->
       (0 <? nth (j + 1) corr 0 - nth j corr 0) = false.
Proof.
  intros H. destruct (first_positive_some _ _ H) as (Hlen & Hpos & Hbefore).
  rewrite diff_length in Hlen.
  split; [lia|]. split.
  - rewrite <- diff_nth by lia. exact Hpos.
  - intros j Hj. rewrite <- diff_nth by lia. now apply Hbefore.
Qed.

Lemma no_rise (corr : list float) :
  Py.first_positive (Py.diff corr) = None
  <-> forall i, (i + 1 < List.length corr)%nat ->
        (0 <? nth (i + 1) corr 0 - nth i corr 0) = false.
Proof.
  rewrite first_positive_none. split.
  - intros H i Hi. rewrite <- diff_nth by exact Hi.
    apply H, nth_In. rewrite diff_length. lia.
  - intros H x Hx. destruct (In_nth _ _ 0 Hx) as (i & Hi & <-).
    rewrite diff_length in Hi. rewrite diff_nth by lia. apply H. lia.
Qed.

Lemma find_peak_split (corr : list float) (peak : nat) :
  find_peak corr = Some peak <->
  exists start k, Py.first_positive (Py.diff corr) = Some start
                  /\ Py.argmax (skipn start corr) = Some k
                  /\ peak = (k + start)%nat.
Proof.
  unfold find_peak. split.
  - destruct (Py.first_positive _) as [start|] eqn:Es; [|discriminate].
    destruct (Py.argmax _) as [k|] eqn:Ek; [|discriminate].
    intros [= <-]. now exists start, k.
  - intros (start & k & -> & -> & ->). reflexivity.
Qed.

(** X1: the search finds no peak exactly when the array never rises: no
    entry exceeds its predecessor (as seen by the first difference), which
    includes the empty and the one-entry array. *)
Theorem find_peak_none (corr : list float) :
  find_peak corr = None
  <-> forall i, (i + 1 < List.length corr)%nat ->
        (0 <? nth (i + 1) corr 0 - nth i corr 0) = false.
Proof.
  rewrite <- no_rise. unfold find_peak.
  destruct (Py.first_positive (Py.diff corr)) as [start|] eqn:E; [|tauto].
  destruct (first_rise corr start E) as (Hlen & _).
  destruct (skipn start corr) as [|x t] eqn:Es.
  - apply (f_equal (@List.length float)) in Es.
    rewrite length_skipn in Es. cbn in Es. lia.
  - cbn [Py.argmax]. destruct (is_nan x); split; discriminate.
Qed.

Lemma find_peak_none_witness : find_peak [4; 3; 3; 1] = None /\ find_peak [] = None.
Proof.
  split.
  - apply (proj2 (find_peak_none [4; 3; 3; 1])). intros i Hi. cbn in Hi.
    assert (i = 0 \/ i = 1 \/ i = 2)%nat as [-> | [-> | ->]] by lia; reflexivity.
  - apply (proj2 (find_peak_none [])). intros i Hi. cbn in Hi. lia.
Defined.

(** ** One iteration, the loop, and what reaches the callback *)

(** *** A lag that is not a number *)

Lemma nan_add (x y : float) : is_nan x = true -> is_nan (x + y) = true.
Proof.
  rewrite !B64.is_nan_spec, add_spec. unfold SF64add.
  destruct (Prim2SF x); try discriminate. reflexivity.
Qed.

Lemma nearest_in_nan (freq : float) (table : list (string * float))
      (st : float * float * string) :
  is_nan freq = true -> fold_left (closer freq) table st = st.
Proof.
  intros Hnan. revert st. induction table as [|[n f] rest IH]; intros st.
  - reflexivity.
  - cbn [fold_left]. destruct st as [[md t] name]. rewrite closer_dist.
    unfold dist. cbn [snd].
    rewrite F64.ltb_nan; [apply IH|].
    rewrite F64.abs_nan. now apply F64.sub_nan.
Qed.

Lemma tuning_nan (c : float) : is_nan c = true -> tuning c = Sharp.
Proof.
  intros Hnan. rewrite tuning_float.
  rewrite F64.ltb_nan by (now rewrite F64.abs_nan).
  now rewrite F64.ltb_nan.
Qed.

Lemma normalized_val_nan (c : float) : is_nan c = true -> normalized_val c = 1.
Proof.
  intros Hnan. unfold normalized_val, py_max, py_min.
  change (@nlt float binary64) with PrimFloat.ltb.
  change (@ndiv float binary64) with PrimFloat.div.
  change (@nadd float binary64) with PrimFloat.add.
  rewrite (F64.ltb_nan ((c + lit 50) / lit 100) (lit 1)); [reflexivity|].
  apply F64.nan_div, nan_add, Hnan.
Qed.

(** X2: a lag that is NaN is not filtered.  The frequency is NaN, both range
    tests are false, and the loop calls back with an active reading whose
    frequency and cents are NaN; without manual target the note name is
    empty.  The display shows it as too sharp with the bar at 1. *)
Theorem nan_lag_reading (K : Kernels) (manual : option float)
        (corr : list float) (peak : nat) :
  find_peak corr = Some peak ->
  is_nan (peak_refined corr peak) = true ->
  exists r,
    detect K manual corr = {| emitted := Some r; pause := Pacing |}
    /\ isActive r = true
    /\ is_nan (frequency r) = true
    /\ is_nan (cents r) = true
    /\ (manual = None -> noteName r = "")
    /\ guide_text (callback r) = "Too Sharp (Tune Down)"
    /\ bar_value (callback r) = 1.
Proof.
  intros Hp Hlag. unfold detect. rewrite Hp.
  set (freq := freq_of_lag (peak_refined corr peak)).
  assert (Hf : is_nan freq = true) by (now apply F64.div_nan).
  unfold implausible. rewrite (F64.ltb_nan _ _ Hf), (F64.ltb_nan_r _ _ Hf).
  cbn [orb].
  destruct (determine_target manual freq) as [t n] eqn:Et.
  assert (Hc : is_nan (cents_of K freq t) = true).
  { unfold cents_of, math_log2.
    rewrite (F64.nan_div freq t Hf). apply B64.mul_nan, F64.nan_div, Hf. }
  eexists. split; [reflexivity|]. cbn [isActive frequency cents noteName].
  split; [reflexivity|]. split; [exact Hf|]. split; [exact Hc|]. split.
  - intros ->. cbn [determine_target] in Et. unfold automatic, nearest_in in Et.
    rewrite (nearest_in_nan freq _ _ Hf) in Et. now injection Et as _ <-.
  - unfold callback. cbn [isActive frequency cents noteName].
    pose proof (update_ui_tuning freq (cents_of K freq t) n) as (_ & Hbar & Hv).
    rewrite (tuning_nan _ Hc) in Hv. apply (f_equal snd) in Hv.
    split; [exact Hv|]. rewrite Hbar. now apply normalized_val_nan.
Qed.

(** An array that overflowed: the peak entry and its successor are infinite,
    the denominator is [inf - inf]. *)
Lemma nan_lag_reading_witness :
  find_peak [2; 0; 1; infinity; infinity; 0] = Some 3%nat
  /\ exists r,
       detect stand_in None [2; 0; 1; infinity; infinity; 0]
       = {| emitted := Some r; pause := Pacing |}
       /\ noteName r = "" /\ is_nan (cents r) = true.
Proof.
  assert (H : find_peak [2; 0; 1; infinity; infinity; 0] = Some 3%nat) by reflexivity.
  split; [exact H|].
  destruct (nan_lag_reading stand_in None _ 3 H eq_refl)
    as (r & Hd & _ & _ & Hc & Hn & _).
  exists r. split; [exact Hd|]. split; [now apply Hn|exact Hc].
Defined.

(** *** What an iteration can emit *)

Lemma detect_emits (K : Kernels) (manual : option float) (corr : list float)
      (r : Reading) :
  emitted (detect K manual corr) = Some r ->
  isActive r = true
  /\ implausible (frequency r) = false
  /\ pause (detect K manual corr) = Pacing
  /\ noteName r = snd (determine_target manual (frequency r))
  /\ cents r = cents_of K (frequency r) (fst (determine_target manual (frequency r))).
Proof.
  unfold detect. destruct (find_peak corr) as [peak|]; [|discriminate].
  destruct (implausible _) eqn:E; [discriminate|].
  destruct (determine_target _ _) as [t n] eqn:Et.
  cbn [emitted pause]. intros [= <-]. cbn [isActive frequency noteName cents].
  rewrite Et. auto.
Qed.

(** X3: every reading the loop hands to the callback is either the silence
    reading (0, 0, "Silence", False) or an active reading whose frequency is
    neither below 60 nor above 500 and whose note name and cents are those of
    the target selected for that frequency. *)
Theorem readings_are_gated (K : Kernels) (self : AudioBackend)
        (stream : list Capture) (r : Reading) :
  In r (process_loop K self stream) ->
  r = silence
  \/ (isActive r = true
      /\ (frequency r <? 60) = false /\ (500 <? frequency r) = false
      /\ noteName r = snd (determine_target (manual_target self) (frequency r))
      /\ cents r = cents_of K (frequency r)
                     (fst (determine_target (manual_target self) (frequency r)))).
Proof.
  induction stream as [|c rest IH]; cbn [process_loop]; [intros []|].
  destruct (running self); [|intros []].
  destruct (emitted (iteration K self c)) as [r'|] eqn:E; [|exact IH].
  intros [<-|Hin]; [|now apply IH].
  destruct c as [| |samples]; cbn [iteration emitted] in E; try discriminate.
  destruct (np_rms K samples <? NOISE_THRESHOLD).
  - injection E as <-. now left.
  - destruct (np_autocorr K samples) as [corr|]; [|discriminate].
    destruct (detect_emits _ _ _ _ E) as (Ha & Hp & _ & Hn & Hc).
    right. unfold implausible in Hp. apply orb_false_iff in Hp as [Hlo Hhi].
    auto.
Qed.

Lemma readings_are_gated_witness :
  In silence (process_loop stand_in (start init_backend)
                [Frames [1; 0; 1; 0]; Frames [0; 0; 0; 0]]).
Proof.
  assert (H : process_loop stand_in (start init_backend)
                [Frames [1; 0; 1; 0]; Frames [0; 0; 0; 0]] = [silence])
    by (vm_compute; reflexivity).
  destruct (readings_are_gated stand_in (start init_backend)
              [Frames [1; 0; 1; 0]; Frames [0; 0; 0; 0]] silence) as [_|[Hact _]].
  - rewrite H. now left.
  - rewrite H. now left.
  - discriminate Hact.
Defined.

(** ** The mode dropdown *)

Lemma key_in_table (n : string) :
  In n ORDERED_KEYS <-> exists f, In (n, f) GUITAR_STRINGS.
Proof.
  split.
  - simpl. intros H.
    repeat (destruct H as [<-|H]; [eexists; simpl; tauto|]). contradiction.
  - intros (f & H). rewrite <- (proj1 table_keys).
    change n with (fst (n, f)). now apply in_map.
Qed.

(** X4: the change handler raises for no value the dropdown offers, and
    for every other string it does: [KeyError] exactly outside "Auto" and the
    six ordered keys. *)
Theorem dropdown_values_accepted (audio : AudioBackend) (value : string) :
  snd (on_mode_change audio value) = None <-> In value mode_options.
Proof.
  unfold on_mode_change, set_manual_target, mode_options.
  destruct (String.eqb_spec value "Auto") as [->|Hne].
  - split; [now left|reflexivity].
  - destruct (getitem GUITAR_STRINGS value) as [f|] eqn:E; cbn [snd].
    + split; [|reflexivity]. intros _. right.
      apply key_in_table. exists f. now apply getitem_In.
    + split; [discriminate|]. intros [H|H]; [congruence|].
      apply key_in_table in H as (f & H).
      destruct (table_lookup _ _ H) as [Hget _]. congruence.
Qed.

(** ** The ratio of a plausible frequency to a target

    Both are normal numbers between 60 and 500, so the quotient is computed
    from two 53-digit mantissas and can neither underflow nor overflow. *)

Module Quotient.
Local Open Scope Z_scope.

(** A mantissa of 53 or 54 digits. *)
Lemma Zdigits2_53 (m : Z) : 2 ^ 52 <= m < 2 ^ 53 <-> (0 < m /\ Zdigits2 m = 53).
Proof.
  pose proof (Rounding.Zdigits2_le m 53) as H53. pose proof (Rounding.Zdigits2_le m 52) as H52.
  split.
  - intros [Hlo Hhi]. assert (0 < m) by (change (2 ^ 52) with 4503599627370496 in Hlo; lia).
    rewrite Z.abs_eq in H53, H52 by lia. lia.
  - intros [Hpos Hd]. rewrite Z.abs_eq in H53, H52 by lia. lia.
Qed.

Lemma Zdigits2_54 (m : Z) : 2 ^ 53 <= m < 2 ^ 54 <-> (0 < m /\ Zdigits2 m = 54).
Proof.
  pose proof (Rounding.Zdigits2_le m 54) as H54. pose proof (Rounding.Zdigits2_le m 53) as H53.
  split.
  - intros [Hlo Hhi]. assert (0 < m) by (change (2 ^ 53) with 9007199254740992 in Hlo; lia).
    rewrite Z.abs_eq in H54, H53 by lia. lia.
  - intros [Hpos Hd]. rewrite Z.abs_eq in H54, H53 by lia. lia.
Qed.

Lemma shr_1_div2 (r : shr_record) : 0 <= shr_m r -> shr_m (shr_1 r) = shr_m r / 2.
Proof.
  destruct r as [m b s]. unfold shr_1. cbn [shr_m].
  destruct m as [|[p|p|]|p]; intros H; try lia; cbn [shr_m].
  - reflexivity.
  - apply Z.div_unique with 1; lia.
  - apply Z.div_unique with 0; lia.
  - reflexivity.
Qed.

(** Shifting a mantissa of 53 or 54 digits to the format leaves 53 digits
    and raises the exponent by at most one. *)
Lemma shr_fexp_normal (m e : Z) (l : location) :
  2 ^ 52 <= m < 2 ^ 54 -> -1074 <= e ->
  let '(r, e') := shr_fexp prec emax m e l in
  2 ^ 52 <= shr_m r < 2 ^ 53 /\ e <= e' <= e + 1.
Proof.
  intros Hm He. unfold shr_fexp, shr, fexp, emin, prec, emax.
  destruct (Z_lt_le_dec m (2 ^ 53)) as [Hlt|Hge].
  - destruct (proj1 (Zdigits2_53 m)) as [_ ->]; [lia|].
    replace (Z.max (53 + e - 53) (3 - 1024 - 53) - e) with 0 by lia.
    rewrite Rounding.shr_record_of_loc_m. lia.
  - destruct (proj1 (Zdigits2_54 m)) as [_ ->]; [lia|].
    replace (Z.max (54 + e - 53) (3 - 1024 - 53) - e) with 1 by lia.
    cbn [SpecFloat.iter_pos].
    rewrite shr_1_div2 by (rewrite Rounding.shr_record_of_loc_m; lia).
    rewrite Rounding.shr_record_of_loc_m.
    change (2 ^ 52) with 4503599627370496 in *.
    change (2 ^ 53) with 9007199254740992 in *.
    change (2 ^ 54) with 18014398509481984 in *.
    split; [|lia]. split.
    + apply Z.div_le_lower_bound; lia.
    + apply Z.div_lt_upper_bound; lia.
Qed.

(** Rounding a positive mantissa of 53 or 54 digits at a moderate exponent
    gives a positive finite number. *)
Lemma binary_round_aux_positive (m e : Z) (l : location) :
  2 ^ 52 <= m < 2 ^ 54 -> -1074 <= e <= 900 ->
  exists m' e', binary_round_aux prec emax false m e l = S754_finite false m' e'.
Proof.
  intros Hm He. unfold binary_round_aux.
  pose proof (shr_fexp_normal m e l Hm (proj1 He)) as H1.
  destruct (shr_fexp prec emax m e l) as [r1 e1]. destruct H1 as [Hr1 He1].
  set (m1 := round_nearest_even (shr_m r1) (loc_of_shr_record r1)).
  assert (Hm1 : 2 ^ 52 <= m1 < 2 ^ 54).
  { subst m1.
    change (2 ^ 52) with 4503599627370496 in *.
    change (2 ^ 53) with 9007199254740992 in *.
    change (2 ^ 54) with 18014398509481984 in *.
    destruct (Rounding.round_nearest_even_cases (shr_m r1) (loc_of_shr_record r1)) as [-> | ->]; lia. }
  pose proof (shr_fexp_normal m1 e1 loc_Exact Hm1 ltac:(lia)) as H2.
  destruct (shr_fexp prec emax m1 e1 loc_Exact) as [r2 e2]. destruct H2 as [Hr2 He2].
  change (2 ^ 52) with 4503599627370496 in *.
  destruct (shr_m r2) as [|p|p]; try lia.
  unfold prec, emax.
  replace (e2 <=? 1024 - 53) with true by (symmetry; apply Z.leb_le; lia).
  now exists p, e2.
Qed.

(** The quotient of two normal positive numbers with nearby exponents. *)
Lemma SFdiv_positive (mx my : positive) (ex ey : Z) :
  Zpos (digits2_pos mx) = 53 -> Zpos (digits2_pos my) = 53 ->
  -100 <= ex <= 100 -> -100 <= ey <= 100 ->
  exists m' e',
    SFdiv prec emax (S754_finite false mx ex) (S754_finite false my ey)
    = S754_finite false m' e'.
Proof.
  intros Hdx Hdy Hex Hey. cbn [SFdiv xorb].
  unfold SFdiv_core_binary. cbn [Zdigits2]. rewrite Hdx, Hdy.
  unfold fexp, emin, prec, emax.
  replace (Z.min (Z.max (53 + ex - (53 + ey) - 53) (3 - 1024 - 53)) (ex - ey))
    with (ex - ey - 53) by lia.
  replace (ex - ey - (ex - ey - 53)) with 53 by lia.
  assert (Hx : 2 ^ 52 <= Zpos mx < 2 ^ 53) by (apply Zdigits2_53; cbn [Zdigits2]; lia).
  assert (Hy : 2 ^ 52 <= Zpos my < 2 ^ 53) by (apply Zdigits2_53; cbn [Zdigits2]; lia).
  rewrite Z.shiftl_mul_pow2 by lia.
  pose proof (Z.div_eucl_eq (Zpos mx * 2 ^ 53) (Zpos my) ltac:(lia)) as Hq.
  pose proof (Z.mod_pos_bound (Zpos mx * 2 ^ 53) (Zpos my) ltac:(lia)) as Hr.
  unfold Z.modulo in Hr.
  destruct (Z.div_eucl (Zpos mx * 2 ^ 53) (Zpos my)) as [q r].
  apply binary_round_aux_positive; [|lia].
  change (2 ^ 52) with 4503599627370496 in *.
  change (2 ^ 53) with 9007199254740992 in *.
  change (2 ^ 54) with 18014398509481984 in *.
  nia.
Qed.

End Quotient.

(** A float between 60 and 500 is a positive normal number. *)
Lemma plausible_normal (x : float) :
  (60 <=? x) = true -> (x <=? 500) = true ->
  exists m e, Prim2SF x = S754_finite false m e
              /\ Zpos (digits2_pos m) = 53%Z /\ (-47 <= e <= -44)%Z.
Proof.
  rewrite !FloatAxioms.leb_spec.
  assert (exists m, Prim2SF 60 = S754_finite false m (-47)) as (m60 & ->)
    by (eexists; vm_compute; reflexivity).
  assert (exists m, Prim2SF 500 = S754_finite false m (-44)) as (m500 & ->)
    by (eexists; vm_compute; reflexivity).
  pose proof (Prim2SF_valid x) as Hvalid. intros Hlo Hhi.
  destruct (Prim2SF x) as [[|]|[|]| |[|] m e]; try discriminate.
  assert (He : (-47 <= e <= -44)%Z).
  { revert Hlo Hhi. unfold SFleb, SFcompare.
    destruct (Z.compare_spec (-47) e); destruct (Z.compare_spec e (-44));
      try discriminate; lia. }
  cbn [valid_binary] in Hvalid. unfold bounded, canonical_mantissa in Hvalid.
  apply andb_true_iff in Hvalid as [Hcanon _].
  apply Z.eqb_eq in Hcanon. unfold fexp, emin, prec, emax in Hcanon.
  exists m, e. split; [reflexivity|]. split; lia.
Qed.

Lemma ratio_positive (freq target : float) :
  (60 <=? freq) = true -> (freq <=? 500) = true ->
  (60 <=? target) = true -> (target <=? 500) = true ->
  (0 <? freq / target) = true /\ (freq / target <? infinity) = true.
Proof.
  intros Hf1 Hf2 Ht1 Ht2.
  destruct (plausible_normal freq Hf1 Hf2) as (mx & ex & Ex & Hdx & Hex).
  destruct (plausible_normal target Ht1 Ht2) as (my & ey & Ey & Hdy & Hey).
  rewrite !FloatAxioms.ltb_spec, div_spec, Ex, Ey, B64.infinity_spec.
  replace (Prim2SF 0) with (S754_zero false) by (vm_compute; reflexivity).
  unfold SF64div.
  destruct (Quotient.SFdiv_positive mx my ex ey Hdx Hdy) as (m & e & ->);
    [lia|lia|].
  split; reflexivity.
Qed.

Lemma table_plausible (n : string) (f : float) :
  In (n, f) GUITAR_STRINGS -> (60 <=? f) = true /\ (f <=? 500) = true.
Proof.
  simpl. intros Hin.
  repeat (destruct Hin as [[= <- <-]|Hin]; [split; reflexivity|]).
  contradiction.
Qed.

(** The target selected for a plausible frequency is an entry of the
    table, in both modes. *)
Lemma target_in_table (self : AudioBackend) (freq : float) :
  well_targeted self ->
  (60 <=? freq) = true -> (freq <=? 500) = true ->
  exists n t, determine_target (manual_target self) freq = (t, n)
              /\ In (n, t) GUITAR_STRINGS.
Proof.
  intros Hw Hlo Hhi.
  assert (Hauto : exists n t, automatic freq = (t, n) /\ In (n, t) GUITAR_STRINGS).
  { pose proof (fold_searched freq GUITAR_STRINGS [] (infinity, 0, "")
                  (fun x Hx => dist_finite freq x Hlo Hhi Hx)
                  (or_introl (conj eq_refl eq_refl))) as H.
    cbn [app] in H. fold (nearest_in GUITAR_STRINGS freq) in H.
    unfold automatic.
    destruct (nearest_in GUITAR_STRINGS freq) as [[md t] n].
    destruct H as [[Hnil _]|(pre & post & Htab & _)]; [discriminate|].
    exists n, t. split; [reflexivity|].
    rewrite Htab. apply in_or_app. right. now left. }
  destruct Hw as [-> |(n & f & Hin & ->)]; [exact Hauto|].
  exists n, f. split; [|exact Hin].
  simpl in Hin.
  repeat (destruct Hin as [[= <- <-]|Hin]; [vm_compute; reflexivity|]).
  contradiction.
Qed.

(** X5: for a frequency between 60 and 500 and a target of the table the
    ratio is a positive finite number, so [math.log2] never raises there:
    the cents are 1200 * log2(freq / target) and the [except ValueError]
    branch is not the source of any cents value the loop emits for a
    frequency that is a number. *)
Theorem cents_never_guarded (K : Kernels) (self : AudioBackend)
        (stream : list Capture) (r : Reading) :
  well_targeted self ->
  In r (process_loop K self stream) ->
  isActive r = true ->
  is_nan (frequency r) = false ->
  exists t, In (noteName r, t) GUITAR_STRINGS
            /\ (0 <? frequency r / t) = true
            /\ (frequency r / t <? infinity) = true
            /\ cents r = 1200 * libm_log2 K (frequency r / t).
Proof.
  intros Hw Hin Hact Hnan.
  assert (Hr : implausible (frequency r) = false
               /\ noteName r = snd (determine_target (manual_target self) (frequency r))
               /\ cents r = cents_of K (frequency r)
                    (fst (determine_target (manual_target self) (frequency r)))).
  { revert Hin. induction stream as [|c rest IH]; cbn [process_loop]; [intros []|].
    destruct (running self); [|intros []].
    destruct (emitted (iteration K self c)) as [r'|] eqn:E; [|exact IH].
    intros [<-|Hin]; [|now apply IH].
    destruct c as [| |samples]; cbn [iteration emitted] in E; try discriminate.
    destruct (np_rms K samples <? NOISE_THRESHOLD).
    - injection E as <-. discriminate Hact.
    - destruct (np_autocorr K samples) as [corr|]; [|discriminate].
      destruct (detect_emits _ _ _ _ E) as (_ & Hp & _ & Hn & Hc). auto. }
  destruct Hr as (Hpl & Hname & Hcents).
  destruct (proj1 (plausible_range _) (conj Hpl Hnan)) as [Hlo Hhi].
  destruct (target_in_table self _ Hw Hlo Hhi) as (n & t & Et & Htab).
  rewrite Et in Hname, Hcents. cbn [fst snd] in Hname, Hcents. subst n.
  destruct (table_plausible _ _ Htab) as [Ht1 Ht2].
  destruct (ratio_positive _ _ Hlo Hhi Ht1 Ht2) as [Hpos Hfin].
  exists t. split; [exact Htab|]. split; [exact Hpos|]. split; [exact Hfin|].
  rewrite Hcents. unfold cents_of, math_log2.
  destruct (B64.ltb_not_nan _ _ Hpos) as [_ ->].
  destruct (frequency r / t =? infinity) eqn:E.
  - apply B64.eqb_infinity in E. rewrite E in Hfin. discriminate.
  - now rewrite Hpos.
Qed.

(** Three clicks 100 samples apart: the correlation peaks at lag 100, which
    is 441 Hz, nearest to E4. *)
Definition click_train : list float :=
  (1 :: repeat 0 99) ++ (1 :: repeat 0 99) ++ (1 :: repeat 0 99).

Lemma cents_never_guarded_witness :
  let r := hd silence (process_loop stand_in (start init_backend) [Frames click_train]) in
  frequency r = 441 /\ noteName r = "E4"
  /\ exists t, In ("E4", t) GUITAR_STRINGS
               /\ cents r = 1200 * log2_linear (441 / t).
Proof.
  set (r := hd silence (process_loop stand_in (start init_backend) [Frames click_train])).
  assert (H : process_loop stand_in (start init_backend) [Frames click_train] = [r])
    by (vm_compute; reflexivity).
  assert (Hf : frequency r = 441) by (vm_compute; reflexivity).
  assert (Hn : noteName r = "E4") by (vm_compute; reflexivity).
  destruct (cents_never_guarded stand_in (start init_backend) [Frames click_train] r)
    as (t & Htab & _ & _ & Hc).
  - now left.
  - rewrite H. now left.
  - vm_compute. reflexivity.
  - vm_compute. reflexivity.
  - split; [exact Hf|]. split; [exact Hn|].
    exists t. rewrite Hn in Htab. rewrite Hf in Hc. split; [exact Htab|exact Hc].
Defined.


(** ** The peak lies after the first rise

    [start] is where the first difference is positive; the entry after it is
    then strictly above the entry at [start], so the maximum of the slice is
    not its first entry. *)

Module Difference.
Local Open Scope Z_scope.

(** The aligned mantissa as a number. *)
Lemma iter_xO (m d : positive) : Zpos (Pos.iter xO m d) = Zpos m * 2 ^ Zpos d.
Proof.
  induction d using Pos.peano_ind.
  - cbn [Pos.iter]. lia.
  - rewrite Pos.iter_succ, Pos2Z.inj_succ, Z.pow_succ_r by lia.
    rewrite Pos2Z.inj_xO, IHd. ring.
Qed.

Lemma shl_align_value (m : positive) (e ez : Z) :
  ez <= e -> Zpos (fst (shl_align m e ez)) = Zpos m * 2 ^ (e - ez).
Proof.
  intros H. unfold shl_align. destruct (ez - e) as [|d|d] eqn:E; cbn [fst].
  - replace (e - ez) with 0 by lia. lia.
  - lia.
  - rewrite iter_xO. f_equal. f_equal. lia.
Qed.

(** A canonical mantissa has at most 53 digits, and exactly 53 above the
    smallest exponent. *)
Lemma canonical_digits (m : positive) (e : Z) :
  bounded prec emax m e = true ->
  Zpos m < 2 ^ 53 /\ (-1074 < e -> 2 ^ 52 <= Zpos m).
Proof.
  unfold bounded, canonical_mantissa, fexp, emin, prec, emax.
  intros H. apply andb_true_iff in H as [H _]. apply Z.eqb_eq in H.
  pose proof (Rounding.Zdigits2_le (Zpos m) 53 ltac:(lia)) as H53.
  pose proof (Rounding.Zdigits2_le (Zpos m) 52 ltac:(lia)) as H52.
  cbn [Zdigits2 Z.abs] in H53, H52. split; [lia|]. intros He. lia.
Qed.

(** A result of rounding with the sign bit set is not above zero. *)
Lemma binary_round_aux_negative (m e : Z) (l : location) :
  SFltb (S754_zero false) (binary_round_aux prec emax true m e l) = false.
Proof.
  unfold binary_round_aux.
  destruct (shr_fexp prec emax m e l) as [r1 e1].
  destruct (shr_fexp prec emax _ e1 loc_Exact) as [r2 e2].
  destruct (shr_m r2); try reflexivity.
  now destruct (e2 <=? emax - prec).
Qed.

Lemma binary_normalize_nonpos (m e : Z) :
  m <= 0 -> SFltb (S754_zero false) (binary_normalize prec emax m e false) = false.
Proof.
  destruct m as [|p|p]; intros H; try lia; cbn [binary_normalize].
  - reflexivity.
  - unfold binary_round. destruct (shl_align _ _ _) as [mz ez].
    apply binary_round_aux_negative.
Qed.

(** If [b <= a] then [b - a] is not positive. *)
Lemma SFsub_not_positive (a b : spec_float) :
  valid_binary a = true -> valid_binary b = true ->
  SFleb b a = true ->
  SFltb (S754_zero false) (SFsub prec emax b a) = false.
Proof.
  intros Va Vb.
  destruct a as [[|]|[|]| |sa ma ea], b as [[|]|[|]| |sb mb eb];
    try (intros _; reflexivity); try discriminate;
    try (destruct sb; (intros _; reflexivity) || discriminate);
    try (destruct sa; (intros _; reflexivity) || discriminate).
  cbn [valid_binary] in Va, Vb.
  destruct (canonical_digits ma ea Va) as [Ha1 Ha2].
  destruct (canonical_digits mb eb Vb) as [Hb1 Hb2].
  assert (Hea : -1074 <= ea).
  { unfold bounded, canonical_mantissa, fexp, emin, prec, emax in Va.
    apply andb_true_iff in Va as [Va _]. apply Z.eqb_eq in Va. lia. }
  assert (Heb : -1074 <= eb).
  { unfold bounded, canonical_mantissa, fexp, emin, prec, emax in Vb.
    apply andb_true_iff in Vb as [Vb _]. apply Z.eqb_eq in Vb. lia. }
  intros Hle. cbn [SFsub]. apply binary_normalize_nonpos.
  rewrite !shl_align_value by lia.
  assert (Hpa : 0 < 2 ^ (ea - Z.min eb ea)) by (apply Z.pow_pos_nonneg; lia).
  assert (Hpb : 0 < 2 ^ (eb - Z.min eb ea)) by (apply Z.pow_pos_nonneg; lia).
  revert Hle. unfold SFleb, SFcompare.
  change (Pos.compare_cont Eq mb ma) with (Pos.compare mb ma).
  change (2 ^ 52) with 4503599627370496 in *.
  change (2 ^ 53) with 9007199254740992 in *.
  destruct sb, sa; cbn [cond_Zopp].
  - (* both negative *)
    destruct (Z.compare_spec eb ea) as [E|E|E].
    + subst eb. replace (ea - Z.min ea ea) with 0 by lia. rewrite Z.pow_0_r.
      destruct (Pos.compare_spec mb ma); cbn [CompOpp]; intros; try discriminate;
        rewrite ?Z.mul_1_r; lia.
    + discriminate.
    + intros _. replace (Z.min eb ea) with ea in * by lia.
      replace (ea - ea) with 0 in * by lia.
      assert (2 <= 2 ^ (eb - ea))
        by (change 2 with (2 ^ 1) at 1; apply Z.pow_le_mono_r; lia).
      specialize (Hb2 ltac:(lia)). nia.
  - intros _. nia.
  - discriminate.
  - (* both positive *)
    destruct (Z.compare_spec eb ea) as [E|E|E].
    + subst eb. replace (ea - Z.min ea ea) with 0 by lia. rewrite Z.pow_0_r.
      destruct (Pos.compare_spec mb ma); cbn [CompOpp]; intros; try discriminate;
        rewrite ?Z.mul_1_r; lia.
    + intros _. replace (Z.min eb ea) with eb in * by lia.
      replace (eb - eb) with 0 in * by lia.
      assert (2 <= 2 ^ (ea - eb))
        by (change 2 with (2 ^ 1) at 1; apply Z.pow_le_mono_r; lia).
      specialize (Ha2 ltac:(lia)). nia.
    + discriminate.
Qed.

End Difference.

(** A positive difference [b - a] means that [b <= a] is false. *)
Lemma rise_strict (a b : float) : (0 <? b - a) = true -> (b <=? a) = false.
Proof.
  intros Hpos. destruct (b <=? a) eqn:Hle; [|reflexivity].
  rewrite FloatAxioms.leb_spec in Hle.
  rewrite FloatAxioms.ltb_spec, sub_spec in Hpos.
  replace (Prim2SF 0) with (S754_zero false) in Hpos by (vm_compute; reflexivity).
  unfold SF64sub in Hpos.
  rewrite (Difference.SFsub_not_positive _ _ (Prim2SF_valid a) (Prim2SF_valid b) Hle)
    in Hpos.
  discriminate.
Qed.

Lemma argmax_scan_later (l : list float) (mp : float) (best i : nat) :
  Py.argmax_scan mp best i l = best \/ (i <= Py.argmax_scan mp best i l)%nat.
Proof.
  revert mp best i. induction l as [|x t IH]; intros mp best i; cbn [Py.argmax_scan].
  - now left.
  - destruct (x <=? mp).
    + destruct (IH mp best (S i)) as [H|H]; [now left|right; lia].
    + destruct (is_nan x); [right; lia|].
      destruct (IH x i (S i)) as [H|H]; right; lia.
Qed.

(** X6: the peak lies strictly after the first rise, so it is never lag 0:
    the test [0 < peak] of the refinement never fails and the integer lag is
    used exactly when the peak is the last lag of the array.  In an array
    without NaN the entry before the peak is strictly below the peak entry
    and the entry after it is not above it. *)
Theorem peak_after_rise (corr : list float) (peak : nat) :
  find_peak corr = Some peak ->
  (exists start, Py.first_positive (Py.diff corr) = Some start
                 /\ (start < peak)%nat)
  /\ (interior corr peak = false <-> peak = (List.length corr - 1)%nat)
  /\ ((forall y, In y corr -> is_nan y = false) ->
      (nth (peak - 1) corr 0 <? nth peak corr 0) = true
      /\ ((peak + 1 < List.length corr)%nat ->
          (nth (peak + 1) corr 0 <=? nth peak corr 0) = true)).
Proof.
  intros H. pose proof H as H0.
  apply find_peak_split in H as (start & k & Hs & Hk & ->).
  destruct (first_rise corr start Hs) as (Hlen & Hrise & _).
  pose proof (argmax_bound _ _ Hk) as Hb. rewrite length_skipn in Hb.
  assert (Hk1 : (1 <= k)%nat).
  { pose proof (rise_strict _ _ Hrise) as Hstrict.
    destruct (skipn start corr) as [|x [|y t]] eqn:Es.
    - discriminate.
    - apply (f_equal (@List.length float)) in Es.
      rewrite length_skipn in Es. cbn in Es. lia.
    - assert (Hx : nth start corr 0 = x).
      { replace start with (start + 0)%nat by lia.
        rewrite <- nth_skipn, Es. reflexivity. }
      assert (Hy : nth (start + 1) corr 0 = y)
        by (rewrite <- nth_skipn, Es; reflexivity).
      rewrite Hx, Hy in Hrise, Hstrict.
      cbn [Py.argmax] in Hk. destruct (is_nan x) eqn:Nx.
      + rewrite F64.ltb_nan_r in Hrise; [discriminate|].
        now apply F64.sub_nan.
      + injection Hk as <-. cbn [Py.argmax_scan]. rewrite Hstrict.
        destruct (is_nan y); [lia|].
        destruct (argmax_scan_later t y 1 2) as [-> |Hge]; lia. }
  split; [exists start; split; [exact Hs|lia]|]. split.
  - rewrite <- not_true_iff_false, interior_bounds. lia.
  - intros Hnan.
    destruct (argmax_max (skipn start corr) k) as (_ & Hle & Hlt);
      [|exact Hk|].
    { intros y Hy. apply Hnan. rewrite <- (firstn_skipn start corr).
      apply in_or_app. now right. }
    rewrite length_skipn in Hle. split.
    + specialize (Hlt (k - 1)%nat). rewrite !nth_skipn in Hlt.
      replace (start + (k - 1))%nat with (k + start - 1)%nat in Hlt by lia.
      replace (start + k)%nat with (k + start)%nat in Hlt by lia.
      apply Hlt. lia.
    + intros Hnext. specialize (Hle (k + 1)%nat). rewrite !nth_skipn in Hle.
      replace (start + (k + 1))%nat with (k + start + 1)%nat in Hle by lia.
      replace (start + k)%nat with (k + start)%nat in Hle by lia.
      apply Hle. lia.
Qed.

Lemma peak_after_rise_witness :
  (nth (3 - 1) [4; 1; 2; 3; 2.5] 0 <? nth 3 [4; 1; 2; 3; 2.5] 0) = true
  /\ interior [4; 1; 2; 3] 3 = false.
Proof.
  destruct (peak_after_rise [4; 1; 2; 3; 2.5] 3 eq_refl) as (_ & _ & Hmax).
  destruct (peak_after_rise [4; 1; 2; 3] 3 eq_refl) as (_ & Hlast & _).
  assert (Hn : forall y, In y [4; 1; 2; 3; 2.5] -> is_nan y = false).
  { intros y Hy. simpl in Hy.
    repeat (destruct Hy as [<-|Hy]; [reflexivity|]). contradiction. }
  split.
  - exact (proj1 (Hmax Hn)).
  - apply Hlast. reflexivity.
Defined.
